(** * The cleanup service of pkg/services/cleanup/cleanup.go

    The service is a ticker loop around five maintenance steps.  Each Go
    function of the file is embedded as an interaction tree whose events are
    the calls the code makes to its collaborators (the operating system, the
    clock, the logger, the bus, the lock service, the SQL session and the
    Go scheduler).  A world gives the collaborators a state and records every
    call with its answer; [exec] runs a tree against a world. *)

From Stdlib Require Import ZArith List String Bool Lia.
From ITree Require Import ITree Eq.Shallow.
Import ListNotations ITreeNotations.
Local Open Scope string_scope.
Local Open Scope list_scope.
Local Open Scope Z_scope.
Local Open Scope itree_scope.

(** ** Go's [time] package, as far as the service uses it *)

Module GoTime.

(** A [time.Time] is an instant: nanoseconds since the Unix epoch.  Go keeps
    64-bit seconds and a nanosecond field, a range no [Duration] can leave
    from a clock or file time, so the instant is an unbounded integer. *)
Definition Time := Z.

(** A [time.Duration] is an int64 count of nanoseconds. *)
Definition Duration := Z.

Definition wrap64 (z : Z) : Z := (z + 2 ^ 63) mod 2 ^ 64 - 2 ^ 63.

(** Multiplication and negation of Durations are int64 operations. *)
Definition mul64 (a b : Z) : Z := wrap64 (a * b).
Definition neg64 (a : Z) : Z := wrap64 (- a).

Definition Nanosecond : Duration := 1.
Definition Second : Duration := 1000000000.
Definition Minute : Duration := 60 * Second.
Definition Hour : Duration := 60 * Minute.

(** [t.Add(d)] *)
Definition Add (t : Time) (d : Duration) : Time := t + d.

(** [t.Before(u)] *)
Definition Before (t u : Time) : bool := t <? u.

(** [t.Sub(u)], for instants less than 292 years apart *)
Definition Sub (t u : Time) : Duration := t - u.

(** [t.Unix()]: whole seconds since the epoch, rounded down *)
Definition Unix (t : Time) : Z := t / Second.

End GoTime.
Import GoTime.

(** ** Values of the collaborators *)

(** Go errors the service can meet; [None] stands for [nil]. *)
Inductive error : Type :=
| ErrNotExist
| ErrPermission
| ContextCanceled
| DeadlineExceeded
| ErrOther (msg : string).

(** [err.Error()] *)
Definition Error (e : error) : string :=
  match e with
  | ErrNotExist => "no such file or directory"
  | ErrPermission => "permission denied"
  | ContextCanceled => "context canceled"
  | DeadlineExceeded => "context deadline exceeded"
  | ErrOther msg => msg
  end.

(** [os.IsNotExist(err)] *)
Definition os_IsNotExist (err : option error) : bool :=
  match err with
  | Some ErrNotExist => true
  | _ => false
  end.

(** [os.FileInfo], with the two methods the service calls *)
Record FileInfo : Type := mkFileInfo { Name : string; ModTime : Time }.

(** [path.Join(dir, name)] for a clean directory path and an entry name, as
    [ioutil.ReadDir] gives it: an empty element is left out, the result is
    cleaned (under "." it is the name, under the root it has one slash).
    The cleaning of a directory path that is not clean is not modelled. *)
Definition path_Join (dir name : string) : string :=
  if String.eqb dir "" || String.eqb dir "." then name
  else if String.eqb dir "/" then ("/" ++ name)%string
  else (dir ++ "/" ++ name)%string.

(** The commands of [models] the service dispatches on the bus.  Dispatch
    takes a pointer: the handler writes [DeletedRows] into the command. *)
Inductive Command : Type :=
| DeleteExpiredSnapshotsCommand (DeletedRows : Z)
| DeleteExpiredVersionsCommand (DeletedRows : Z)
| DeleteOldLoginAttemptsCommand (OlderThan : Time) (DeletedRows : Z).

Definition DeletedRows (cmd : Command) : Z :=
  match cmd with
  | DeleteExpiredSnapshotsCommand n => n
  | DeleteExpiredVersionsCommand n => n
  | DeleteOldLoginAttemptsCommand _ n => n
  end.

(** A [sql.Result]: what [RowsAffected()] will answer. *)
Record Result : Type := mkResult { rows : Z; rowsErr : option error }.

Definition RowsAffected (res : Result) : Z * option error :=
  (rows res, rowsErr res).

(** Values of the key/value context of a log record *)
Inductive Value : Type :=
| VInt (n : Z)
| VStr (s : string)
| VErr (e : error)
| VTime (t : Time).

(** The case a [select] over the ticker and the context took *)
Variant Chosen : Type := TickerC | CtxDone.

(** A [context.Context]; the world holds its state. *)
Variant Context : Type := TheContext.

(** ** Events: the calls to the collaborators *)

Variant E : Type -> Type :=
| os_Stat (name : string) : E (option error)
| ioutil_ReadDir (dirname : string) : E (list FileInfo * option error)
| os_Remove (name : string) : E (option error)
| time_Now : E Time
| time_NewTicker (d : Duration) : E unit
| log_Error (msg : string) (kv : list (string * Value)) : E unit
| log_Debug (msg : string) (kv : list (string * Value)) : E unit
| bus_Dispatch (cmd : Command) : E (Command * option error)
| lock_Acquire (actionName : string) (maxInterval : Duration) : E (option error)
| db_Exec (sql : string) (args : list Z) : E (Result * option error)
| select_ (ctx : Context) : E Chosen
| ctx_Err (ctx : Context) : E (option error).

(** A recorded call: the event and the answer it got. *)
Inductive event : Type :=
| Ev : forall T : Type, E T -> T -> event.
Arguments Ev {T} e ans.

(** ** The service *)

(** [setting.Cfg], the fields the service reads *)
Record setting_Cfg : Type := mkCfg {
  ImagesDir : string;
  TempDataLifetime : Duration;
  UserInviteMaxLifetimeDays : Z;
  DisableBruteForceLoginProtection : bool
}.

Record CleanUpService : Type := mkService { Cfg : setting_Cfg }.

Definition shouldCleanupTempFile (srv : CleanUpService)
    (filemtime now : Time) : bool :=
  if TempDataLifetime (Cfg srv) =? 0 then false
  else Before (Add filemtime (TempDataLifetime (Cfg srv))) now.

(** [for _, file := range files { if should(file) { toDelete = append(toDelete, file) } }] *)
Definition collect (srv : CleanUpService) (now : Time)
    (files : list FileInfo) : list FileInfo :=
  fold_left
    (fun toDelete file =>
       if shouldCleanupTempFile srv (ModTime file) now
       then toDelete ++ [file] else toDelete)
    files [].

(** [for _, file := range toDelete { ... os.Remove ... }] *)
Fixpoint removeAll (srv : CleanUpService) (toDelete : list FileInfo)
    : itree E unit :=
  match toDelete with
  | [] => Ret tt
  | file :: more =>
      let fullPath := path_Join (ImagesDir (Cfg srv)) (Name file) in
      err <- ITree.trigger (os_Remove fullPath);;
      match err with
      | Some e =>
          ITree.trigger (log_Error "Failed to delete temp file"
                     [("file", VStr (Name file)); ("error", VErr e)])
      | None => Ret tt
      end;;
      removeAll srv more
  end.

Definition len {A} (l : list A) : Z := Z.of_nat (List.length l).

Definition cleanUpTmpFiles (srv : CleanUpService) : itree E unit :=
  err <- ITree.trigger (os_Stat (ImagesDir (Cfg srv)));;
  if os_IsNotExist err then Ret tt
  else
    '(files, err) <- ITree.trigger (ioutil_ReadDir (ImagesDir (Cfg srv)));;
    match err with
    | Some e =>
        ITree.trigger (log_Error "Problem reading image dir" [("error", VErr e)])
    | None =>
        now <- ITree.trigger time_Now;;
        let toDelete := collect srv now files in
        removeAll srv toDelete;;
        ITree.trigger (log_Debug "Found old rendered image to delete"
                   [("deleted", VInt (len toDelete)); ("kept", VInt (len files))])
    end.

Definition deleteExpiredSnapshots (srv : CleanUpService) : itree E unit :=
  let cmd := DeleteExpiredSnapshotsCommand 0 in
  '(cmd, err) <- ITree.trigger (bus_Dispatch cmd);;
  match err with
  | Some e =>
      ITree.trigger (log_Error "Failed to delete expired snapshots"
                 [("error", VStr (Error e))])
  | None =>
      ITree.trigger (log_Debug "Deleted expired snapshots"
                 [("rows affected", VInt (DeletedRows cmd))])
  end.

Definition deleteExpiredDashboardVersions (srv : CleanUpService)
    : itree E unit :=
  let cmd := DeleteExpiredVersionsCommand 0 in
  '(cmd, err) <- ITree.trigger (bus_Dispatch cmd);;
  match err with
  | Some e =>
      ITree.trigger (log_Error "Failed to delete expired dashboard versions"
                 [("error", VStr (Error e))])
  | None =>
      ITree.trigger (log_Debug "Deleted old/expired dashboard versions"
                 [("rows affected", VInt (DeletedRows cmd))])
  end.

Definition deleteOldLoginAttempts (srv : CleanUpService) : itree E unit :=
  if DisableBruteForceLoginProtection (Cfg srv) then Ret tt
  else
    now <- ITree.trigger time_Now;;
    let cmd := DeleteOldLoginAttemptsCommand (Add now (Minute * -10)) 0 in
    '(cmd, err) <- ITree.trigger (bus_Dispatch cmd);;
    match err with
    | Some e =>
        ITree.trigger (log_Error "Problem deleting expired login attempts"
                   [("error", VStr (Error e))])
    | None =>
        ITree.trigger (log_Debug "Deleted expired login attempts"
                   [("rows affected", VInt (DeletedRows cmd))])
    end.

Definition deleteInvitesSql : string :=
  "DELETE from temp_user WHERE created_at <= ?".

(** Modelled from the spec: [SQLStore.WithDbSession], of pkg/services/sqlstore,
    is not in this file.  The spec calls it a "generic session-scoped SQL
    execution primitive": it runs the callback on a session and returns the
    callback's error. *)
Definition WithDbSession {R} (ctx : Context)
    (callback : itree E (R * option error)) : itree E (R * option error) :=
  callback.

(** The callback assigns the captured [affected]; the tree returns it next to
    the callback's error. *)
Definition deleteExpiredUserInvites (srv : CleanUpService) (ctx : Context)
    : itree E (Z * option error) :=
  let maxInviteLifetime :=
    mul64 (mul64 (UserInviteMaxLifetimeDays (Cfg srv)) 24) Hour in
  let affected := 0 in
  WithDbSession ctx
    (now <- ITree.trigger time_Now;;
     let createdBefore := Add now (neg64 maxInviteLifetime) in
     ITree.trigger (log_Debug "starting cleanup of expired user invites"
                [("createdBefore", VTime createdBefore)]);;
     '(res, err) <- ITree.trigger (db_Exec deleteInvitesSql [Unix createdBefore]);;
     match err with
     | Some e => Ret (affected, Some e)
     | None =>
         let '(affected, err) := RowsAffected res in
         match err with
         | Some e =>
             ITree.trigger (log_Error "failed to cleanup expired user invites"
                        [("error", VErr e)]);;
             Ret (affected, None)
         | None =>
             ITree.trigger (log_Debug "cleanup of expired user invites done"
                        [("count", VInt affected)]);;
             Ret (affected, None)
         end
     end).

(** Modelled from the spec: [ServerLockService.LockAndExecute], of
    pkg/infra/serverlock, is not in this file.  The spec gives it as
    [lockAndExecute(name, leaseDuration, body) -> error], which "returns an
    error if the lock cannot be acquired (body not executed)"; when the lease
    is granted the body runs and the result is nil. *)
Definition LockAndExecute (ctx : Context) (actionName : string)
    (maxInterval : Duration) (fn : itree E unit) : itree E (option error) :=
  denied <- ITree.trigger (lock_Acquire actionName maxInterval);;
  match denied with
  | Some e => Ret (Some e)
  | None => fn;; Ret None
  end.

(** The fifth step of a tick (lines 46 to 52 of [Run]): the deletion of old
    login attempts under the lock, and the record of a failure to lock *)
Definition lockedLoginAttempts (srv : CleanUpService) (ctx : Context)
    : itree E unit :=
  err <- LockAndExecute ctx "delete old login attempts" (Minute * 10)
           (deleteOldLoginAttempts srv);;
  match err with
  | Some e =>
      ITree.trigger (log_Error "failed to lock and execute cleanup of old login attempts"
                 [("error", VErr e)])
  | None => Ret tt
  end.

(** The body of [case <-ticker.C:] *)
Definition tick (srv : CleanUpService) (ctx : Context) : itree E unit :=
  cleanUpTmpFiles srv;;
  deleteExpiredSnapshots srv;;
  deleteExpiredDashboardVersions srv;;
  deleteExpiredUserInvites srv ctx;;
  lockedLoginAttempts srv ctx.

(** [for { select { ... } }]: [inl] goes round again, [inr] returns. *)
Definition loop (srv : CleanUpService) (ctx : Context)
    : itree E (option error) :=
  ITree.iter
    (fun _ : unit =>
       c <- ITree.trigger (select_ ctx);;
       match c with
       | TickerC => tick srv ctx;; Ret (inl tt)
       | CtxDone => err <- ITree.trigger (ctx_Err ctx);; Ret (inr err)
       end)
    tt.

Definition Run (srv : CleanUpService) (ctx : Context)
    : itree E (option error) :=
  cleanUpTmpFiles srv;;
  ITree.trigger (time_NewTicker (Minute * 10));;
  loop srv ctx.

(** ** The world of the collaborators *)

(** The images directory on disk *)
Inductive DirState : Type :=
| Missing
| Unreadable (e : error)
| Listing (files : list FileInfo).

Record TempUser : Type := mkTempUser { tu_id : Z; created_at : Z }.
Record LoginAttempt : Type := mkLoginAttempt { la_id : Z; la_created : Z }.

(** What goes wrong at one [Exec]: nothing, the statement fails, or it
    succeeds with a result whose [RowsAffected()] answers [(n, e)] *)
Inductive DbFault : Type :=
| NoFault
| ExecFails (e : error)
| CountFails (n : Z) (e : error).

Record World : Type := mkWorld {
  dir_path : string;                   (* the directory the world tracks *)
  dir_state : DirState;
  remove_err : string -> option error; (* paths os.Remove refuses, for now *)
  now : Time;                          (* the clock, and its later readings *)
  later : list Time;
  temp_user : list TempUser;           (* table temp_user *)
  login_attempt : list LoginAttempt;   (* table login_attempt *)
  db_faults : list DbFault;            (* one per Exec; none left: NoFault *)
  bus_answers : list (Z * option error); (* one per Dispatch; none left: (0, nil) *)
  lock_answers : list (option error);  (* one per lock request; none left: granted *)
  chosen : list Chosen;                (* the cases the selects will take *)
  ctx_err : option error;              (* ctx.Err() *)
  cancel_in : option (nat * error);    (* cancellation arrives after so many calls *)
  calls : list event                   (* every call so far, oldest first *)
}.

Definition set_dir_state (v : DirState) (w : World) : World :=
  mkWorld (dir_path w) v (remove_err w) (now w) (later w) (temp_user w)
    (login_attempt w) (db_faults w) (bus_answers w) (lock_answers w)
    (chosen w) (ctx_err w) (cancel_in w) (calls w).

(** The refusals of [os.Remove] stand while a tree runs; between two runs
    the system may come to refuse other paths, or none. *)
Definition set_remove_err (v : string -> option error) (w : World) : World :=
  mkWorld (dir_path w) (dir_state w) v (now w) (later w) (temp_user w)
    (login_attempt w) (db_faults w) (bus_answers w) (lock_answers w)
    (chosen w) (ctx_err w) (cancel_in w) (calls w).

Definition set_clock (t : Time) (l : list Time) (w : World) : World :=
  mkWorld (dir_path w) (dir_state w) (remove_err w) t l (temp_user w)
    (login_attempt w) (db_faults w) (bus_answers w) (lock_answers w)
    (chosen w) (ctx_err w) (cancel_in w) (calls w).

Definition set_temp_user (v : list TempUser) (w : World) : World :=
  mkWorld (dir_path w) (dir_state w) (remove_err w) (now w) (later w) v
    (login_attempt w) (db_faults w) (bus_answers w) (lock_answers w)
    (chosen w) (ctx_err w) (cancel_in w) (calls w).

Definition set_login_attempt (v : list LoginAttempt) (w : World) : World :=
  mkWorld (dir_path w) (dir_state w) (remove_err w) (now w) (later w)
    (temp_user w) v (db_faults w) (bus_answers w) (lock_answers w)
    (chosen w) (ctx_err w) (cancel_in w) (calls w).

Definition set_db_faults (v : list DbFault) (w : World) : World :=
  mkWorld (dir_path w) (dir_state w) (remove_err w) (now w) (later w)
    (temp_user w) (login_attempt w) v (bus_answers w) (lock_answers w)
    (chosen w) (ctx_err w) (cancel_in w) (calls w).

Definition set_bus_answers (v : list (Z * option error)) (w : World) : World :=
  mkWorld (dir_path w) (dir_state w) (remove_err w) (now w) (later w)
    (temp_user w) (login_attempt w) (db_faults w) v (lock_answers w)
    (chosen w) (ctx_err w) (cancel_in w) (calls w).

Definition set_lock_answers (v : list (option error)) (w : World) : World :=
  mkWorld (dir_path w) (dir_state w) (remove_err w) (now w) (later w)
    (temp_user w) (login_attempt w) (db_faults w) (bus_answers w) v
    (chosen w) (ctx_err w) (cancel_in w) (calls w).

Definition set_chosen (v : list Chosen) (w : World) : World :=
  mkWorld (dir_path w) (dir_state w) (remove_err w) (now w) (later w)
    (temp_user w) (login_attempt w) (db_faults w) (bus_answers w)
    (lock_answers w) v (ctx_err w) (cancel_in w) (calls w).

Definition set_ctx (e : option error) (c : option (nat * error)) (w : World)
    : World :=
  mkWorld (dir_path w) (dir_state w) (remove_err w) (now w) (later w)
    (temp_user w) (login_attempt w) (db_faults w) (bus_answers w)
    (lock_answers w) (chosen w) e c (calls w).

Definition record (ev : event) (w : World) : World :=
  mkWorld (dir_path w) (dir_state w) (remove_err w) (now w) (later w)
    (temp_user w) (login_attempt w) (db_faults w) (bus_answers w)
    (lock_answers w) (chosen w) (ctx_err w) (cancel_in w) (calls w ++ [ev]).

(** The reason the context is or will be cancelled with, if any *)
Definition reason (w : World) : option error :=
  match ctx_err w with
  | Some e => Some e
  | None => option_map snd (cancel_in w)
  end.

(** One call goes by: a pending cancellation comes one call nearer, and
    arrives when none is left to wait for. *)
Definition arrive (w : World) : World :=
  match ctx_err w, cancel_in w with
  | None, Some (O, e) => set_ctx (Some e) None w
  | None, Some (S k, e) => set_ctx None (Some (k, e)) w
  | _, _ => w
  end.

(** *** The file system *)

Definition is_path (w : World) (p : string) (f : FileInfo) : bool :=
  String.eqb (path_Join (dir_path w) (Name f)) p.

Definition fs_stat (w : World) (p : string) : option error :=
  if String.eqb p (dir_path w) then
    match dir_state w with
    | Missing => Some ErrNotExist
    | _ => None
    end
  else Some ErrNotExist.

Definition fs_readdir (w : World) (p : string)
    : list FileInfo * option error :=
  if String.eqb p (dir_path w) then
    match dir_state w with
    | Missing => ([], Some ErrNotExist)
    | Unreadable e => ([], Some e)
    | Listing files => (files, None)
    end
  else ([], Some ErrNotExist).

Definition fs_remove (w : World) (p : string) : option error * World :=
  match remove_err w p with
  | Some e => (Some e, w)
  | None =>
      match dir_state w with
      | Listing files =>
          if existsb (is_path w p) files
          then (None,
                set_dir_state
                  (Listing (filter (fun f => negb (is_path w p f)) files)) w)
          else (Some ErrNotExist, w)
      | _ => (Some ErrNotExist, w)
      end
  end.

(** *** The clock *)

Definition clock_read (w : World) : Time * World :=
  (now w,
   match later w with
   | [] => w
   | t :: l => set_clock t l w
   end).

(** *** The bus *)

Definition next_bus (w : World) : (Z * option error) * World :=
  match bus_answers w with
  | [] => ((0, None), w)
  | a :: l => (a, set_bus_answers l w)
  end.

(** Modelled from the spec: the handler of [DeleteOldLoginAttemptsCommand],
    of pkg/services/sqlstore, is not in this file.  The spec gives it as a
    "bulk delete-by-cutoff-timestamp" that "returns affected-row count or
    error", the cutoff being "the boundary time below which records are
    considered expired".  The handlers of the two other commands use
    "store-defined expiry rules": their row counts are answers of the world. *)
Definition bus_dispatch (w : World) (cmd : Command)
    : (Command * option error) * World :=
  let '((n, err), w1) := next_bus w in
  match err with
  | Some e => ((cmd, Some e), w1)
  | None =>
      match cmd with
      | DeleteExpiredSnapshotsCommand _ =>
          ((DeleteExpiredSnapshotsCommand n, None), w1)
      | DeleteExpiredVersionsCommand _ =>
          ((DeleteExpiredVersionsCommand n, None), w1)
      | DeleteOldLoginAttemptsCommand olderThan _ =>
          let old a := la_created a <? Unix olderThan in
          let kept := filter (fun a => negb (old a)) (login_attempt w1) in
          ((DeleteOldLoginAttemptsCommand olderThan
              (len (filter old (login_attempt w1))), None),
           set_login_attempt kept w1)
      end
  end.

(** *** The lock service *)

Definition lock_acquire (w : World) : option error * World :=
  match lock_answers w with
  | [] => (None, w)
  | a :: l => (a, set_lock_answers l w)
  end.

(** *** The SQL session *)

Definition next_fault (w : World) : DbFault * World :=
  match db_faults w with
  | [] => (NoFault, w)
  | a :: l => (a, set_db_faults l w)
  end.

(** The session reads the text of the statement it is handed.  It knows
    the statements of the form [DELETE from <table> WHERE <column> <op> ?]:
    words set apart by blanks, keywords in either case, one placeholder. *)

Fixpoint split_on (sep : Ascii.ascii) (s : string) : list string :=
  match s with
  | EmptyString => [EmptyString]
  | String c rest =>
      if Ascii.eqb c sep then EmptyString :: split_on sep rest
      else match split_on sep rest with
           | [] => [String c EmptyString]
           | word :: more => String c word :: more
           end
  end.

Definition sql_words (sql : string) : list string :=
  filter (fun word => negb (String.eqb word "")) (split_on (Ascii.ascii_of_nat 32) sql).

Definition lower_ascii (c : Ascii.ascii) : Ascii.ascii :=
  let n := Ascii.nat_of_ascii c in
  if ((65 <=? n) && (n <=? 90))%nat then Ascii.ascii_of_nat (n + 32) else c.

Fixpoint lower (s : string) : string :=
  match s with
  | EmptyString => EmptyString
  | String c rest => String (lower_ascii c) (lower rest)
  end.

Inductive Comparison : Type :=
| CmpLe
| CmpLt
| CmpGe
| CmpGt
| CmpEq
| CmpNe.

Definition parse_comparison (op : string) : option Comparison :=
  if String.eqb op "<=" then Some CmpLe
  else if String.eqb op "<" then Some CmpLt
  else if String.eqb op ">=" then Some CmpGe
  else if String.eqb op ">" then Some CmpGt
  else if String.eqb op "=" then Some CmpEq
  else if String.eqb op "<>" then Some CmpNe
  else None.

Definition holds (c : Comparison) (a b : Z) : bool :=
  match c with
  | CmpLe => a <=? b
  | CmpLt => a <? b
  | CmpGe => b <=? a
  | CmpGt => b <? a
  | CmpEq => a =? b
  | CmpNe => negb (a =? b)
  end.

Record DeleteStatement : Type := mkDelete {
  del_table : string;
  del_column : string;
  del_where : Comparison
}.

Definition parse_delete (sql : string) : option DeleteStatement :=
  match sql_words sql with
  | [kw1; kw2; table; kw3; column; op; placeholder] =>
      if String.eqb (lower kw1) "delete" && String.eqb (lower kw2) "from"
         && String.eqb (lower kw3) "where" && String.eqb placeholder "?"
      then option_map (mkDelete table column) (parse_comparison op)
      else None
  | _ => None
  end.

(** The columns of table temp_user the world keeps: [id], and [created_at]
    in Unix seconds *)
Definition temp_user_column (name : string) : option (TempUser -> Z) :=
  if String.eqb name "created_at" then Some created_at
  else if String.eqb name "id" then Some tu_id
  else None.

(** [Exec(sql, args...)]: the statement is parsed and run on table
    temp_user, the one table the world keeps for the session; the rows its
    WHERE clause holds of, with the argument in the placeholder's place, are
    deleted and counted. *)
Definition db_exec (w : World) (sql : string) (args : list Z)
    : (Result * option error) * World :=
  let '(fault, w1) := next_fault w in
  match fault with
  | ExecFails e => ((mkResult 0 None, Some e), w1)
  | _ =>
      match parse_delete sql, args with
      | Some st, [bound] =>
          match String.eqb (del_table st) "temp_user",
                temp_user_column (del_column st) with
          | true, Some column =>
              let hit u := holds (del_where st) (column u) bound in
              let res :=
                match fault with
                | CountFails n e => mkResult n (Some e)
                | _ => mkResult (len (filter hit (temp_user w1))) None
                end in
              ((res, None),
               set_temp_user (filter (fun u => negb (hit u)) (temp_user w1)) w1)
          | true, None =>
              ((mkResult 0 None, Some (ErrOther "no such column")), w1)
          | false, _ =>
              ((mkResult 0 None, Some (ErrOther "no such table")), w1)
          end
      | _, _ => ((mkResult 0 None, Some (ErrOther "unknown statement")), w1)
      end
  end.

(** *** The scheduler: which case a [select] takes

    The ticker case can always be taken (the ticker fires sooner or later);
    the Done case only once the context is cancelled, and a select that waits
    for it sees a pending cancellation arrive.  With no case left to take the
    select blocks for ever. *)

Definition select_case (w : World) : option (Chosen * World) :=
  match chosen w with
  | [] => None
  | TickerC :: l => Some (TickerC, set_chosen l w)
  | CtxDone :: l =>
      match reason w with
      | Some e => Some (CtxDone, set_ctx (Some e) None (set_chosen l w))
      | None => None
      end
  end.

(** ** Running a tree against a world *)

Definition handle {T} (e : E T) (w : World) : option (T * World) :=
  match e in E T return option (T * World) with
  | os_Stat p => Some (fs_stat w p, w)
  | ioutil_ReadDir p => Some (fs_readdir w p, w)
  | os_Remove p => Some (fs_remove w p)
  | time_Now => Some (clock_read w)
  | time_NewTicker _ => Some (tt, w)
  | log_Error _ _ => Some (tt, w)
  | log_Debug _ _ => Some (tt, w)
  | bus_Dispatch cmd => Some (bus_dispatch w cmd)
  | lock_Acquire _ _ => Some (lock_acquire w)
  | db_Exec sql args => Some (db_exec w sql args)
  | select_ _ => select_case w
  | ctx_Err _ => Some (ctx_err w, w)
  end.

Inductive outcome (R : Type) : Type :=
| Returned (r : R) (w : World)
| Blocked (w : World)
| OutOfFuel.
Arguments Returned {R} r w.
Arguments Blocked {R} w.
Arguments OutOfFuel {R}.

Fixpoint exec {R} (fuel : nat) (t : itree E R) (w : World) : outcome R :=
  match fuel with
  | O => OutOfFuel
  | S fuel' =>
      match observe t with
      | RetF r => Returned r w
      | TauF t' => exec fuel' t' w
      | VisF e k =>
          match handle e (arrive w) with
          | None => Blocked w
          | Some (a, w') => exec fuel' (k a) (record (Ev e a) w')
          end
      end
  end.

(** [t], started in [w], returns [r] and leaves [w']. *)
Definition runs {R} (t : itree E R) (w : World) (r : R) (w' : World) : Prop :=
  exists fuel, exec fuel t w = Returned r w'.

(** ** Views of the recorded calls *)

(** The five steps of a tick *)
Inductive Step : Type :=
| TempFiles
| Snapshots
| DashboardVersions
| UserInvites
| LoginAttempts.

(** What the scheduler of the service shows: the first call of each step,
    the creation of the ticker and the outcome of each select. *)
Inductive Mark : Type :=
| Op (s : Step)
| Ticker (d : Duration)
| Woke (c : Chosen).

Definition mark (ev : event) : list Mark :=
  match ev with
  | Ev (os_Stat _) _ => [Op TempFiles]
  | Ev (bus_Dispatch (DeleteExpiredSnapshotsCommand _)) _ => [Op Snapshots]
  | Ev (bus_Dispatch (DeleteExpiredVersionsCommand _)) _ => [Op DashboardVersions]
  | Ev (db_Exec _ _) _ => [Op UserInvites]
  | Ev (lock_Acquire _ _) _ => [Op LoginAttempts]
  | Ev (time_NewTicker d) _ => [Ticker d]
  | Ev (select_ _) c => [Woke c]
  | _ => []
  end.

Definition schedule (evs : list event) : list Mark := flat_map mark evs.

(** The leases the lock service was asked for *)
Definition lease (ev : event) : list Duration :=
  match ev with
  | Ev (lock_Acquire _ d) _ => [d]
  | _ => []
  end.

Definition leases (evs : list event) : list Duration := flat_map lease evs.

(** The cutoffs of the login-attempt deletes put on the bus *)
Definition login_delete (ev : event) : list Time :=
  match ev with
  | Ev (bus_Dispatch (DeleteOldLoginAttemptsCommand olderThan _)) _ => [olderThan]
  | _ => []
  end.

Definition login_deletes (evs : list event) : list Time :=
  flat_map login_delete evs.

(** Events that wait on the scheduler or read the context *)
Definition waits {T} (e : E T) : bool :=
  match e with
  | select_ _ | ctx_Err _ => true
  | _ => false
  end.

(** ** The vocabulary of the statements *)

(** The state of the context: its error, and the cancellation on its way *)
Definition ctx_of (w : World) : option error * option (nat * error) :=
  (ctx_err w, cancel_in w).

(** What one call does to it *)
Definition ctx_step (s : option error * option (nat * error))
    : option error * option (nat * error) :=
  match s with
  | (None, Some (O, e)) => (Some e, None)
  | (None, Some (S k, e)) => (None, Some (k, e))
  | _ => s
  end.

(** [frame w w' evs]: the run from [w] to [w'] made the calls [evs], took no
    case of a select, let a pending cancellation come nearer by one call
    each, and changed the lock answers and the login attempts only through a
    lock request or a login-attempt delete. *)
Record frame (w w' : World) (evs : list event) : Prop := mkFrame {
  fr_calls : calls w' = calls w ++ evs;
  fr_path : dir_path w' = dir_path w;
  fr_refuse : remove_err w' = remove_err w;
  fr_ctx : ctx_of w' = Nat.iter (List.length evs) ctx_step (ctx_of w);
  fr_chosen : chosen w' = chosen w;
  fr_lock : leases evs = [] -> lock_answers w' = lock_answers w;
  fr_login : login_deletes evs = [] -> login_attempt w' = login_attempt w
}.

Definition reason_of (s : option error * option (nat * error)) : option error :=
  match fst s with
  | Some e => Some e
  | None => option_map snd (snd s)
  end.

(** What a call leaves as it is, the context apart *)
Record unchanged (w w' : World) (ev : event) : Prop := mkUnchanged {
  un_calls : calls w' = calls w;
  un_path : dir_path w' = dir_path w;
  un_refuse : remove_err w' = remove_err w;
  un_ctx : ctx_of w' = ctx_of w;
  un_chosen : chosen w' = chosen w;
  un_lock : lease ev = [] -> lock_answers w' = lock_answers w;
  un_login : login_delete ev = [] -> login_attempt w' = login_attempt w
}.

(** *** A logic of the calls a tree makes

    [safe Q t]: whatever the collaborators answer, [t] never waits on the
    scheduler, and it returns some [r] after calls [evs] with [Q evs r]. *)

Inductive safeF {R : Type} (Q : list event -> R -> Prop)
    : itree' E R -> Prop :=
| safe_ret (r : R) : Q [] r -> safeF Q (RetF r)
| safe_tau (t : itree E R) : safeF Q (observe t) -> safeF Q (TauF t)
| safe_vis (T : Type) (e : E T) (k : T -> itree E R) :
    waits e = false ->
    (forall a : T, safeF (fun evs r => Q (Ev e a :: evs) r) (observe (k a))) ->
    safeF Q (VisF e k).

Definition safe {R : Type} (Q : list event -> R -> Prop) (t : itree E R)
    : Prop :=
  safeF Q (observe t).

(** The calls of one step: its mark and nothing of the lock or the login
    attempts. *)
Definition step_calls (s : list Mark) (evs : list event) : Prop :=
  schedule evs = s /\ leases evs = [] /\ login_deletes evs = [].

Definition five_steps : list Mark :=
  map Op [TempFiles; Snapshots; DashboardVersions; UserInvites; LoginAttempts].

(** The calls of one tick: the five steps in order, one lock request with a
    lease of ten minutes, and no login-attempt delete when the protection is
    disabled. *)
Definition tick_calls (srv : CleanUpService) (evs : list event) : Prop :=
  schedule evs = five_steps /\
  leases evs = [Minute * 10] /\
  (DisableBruteForceLoginProtection (Cfg srv) = true -> login_deletes evs = []).

(** The calls of the fifth step: one lock request with a lease of ten
    minutes, and no login-attempt delete when the protection is disabled. *)
Definition locked_calls (srv : CleanUpService) (evs : list event) : Prop :=
  schedule evs = [Op LoginAttempts] /\
  leases evs = [Minute * 10] /\
  (DisableBruteForceLoginProtection (Cfg srv) = true -> login_deletes evs = []).

(** What [n] ticks and the return leave in the record *)
Definition loop_schedule (n : nat) : list Mark :=
  List.concat (repeat (Woke TickerC :: five_steps) n) ++ [Woke CtxDone].

(** What a run of [n] ticks leaves in the record *)
Definition Run_schedule (n : nat) : list Mark :=
  Op TempFiles :: Ticker (Minute * 10) :: loop_schedule n.

(** *** The temp-file pass *)

(** What the pass reads of the world and never changes but through the
    clock: the directory's path, the refusals and the clock itself *)
Definition disk (w : World) : string * (string -> option error) :=
  (dir_path w, remove_err w).

Definition clock (w : World) : Time * list Time := (now w, later w).

(** [hits dir refuse d f]: removing [d] succeeds and takes [f] away. *)
Definition hits (dir : string) (refuse : string -> option error)
    (d f : FileInfo) : bool :=
  match refuse (path_Join dir (Name d)) with
  | Some _ => false
  | None => String.eqb (path_Join dir (Name f)) (path_Join dir (Name d))
  end.

(** A call that only reads: the world moves on by one call. *)
Definition after (ev : event) (w : World) : World := record ev (arrive w).

Definition stale (srv : CleanUpService) (now : Time) (f : FileInfo) : bool :=
  shouldCleanupTempFile srv (ModTime f) now.

Definition found_log (srv : CleanUpService) (now : Time)
    (files : list FileInfo) : event :=
  Ev (log_Debug "Found old rendered image to delete"
        [("deleted", VInt (len (filter (stale srv now) files)));
         ("kept", VInt (len files))]) tt.

(** [os.Remove] does not refuse the file. *)
Definition removable (w : World) (f : FileInfo) : bool :=
  match remove_err w (path_Join (dir_path w) (Name f)) with
  | Some _ => false
  | None => true
  end.

(** What one pass leaves: the files that are not stale, and the stale ones
    the system refuses to remove. *)
Definition left_by (srv : CleanUpService) (w : World) (files : list FileInfo)
    : list FileInfo :=
  filter (fun f => negb (stale srv (now w) f && removable w f)) files.

(** *** The deletion of expired invites *)

(** The bound handed to the statement: now minus the invites' lifetime, in
    Unix seconds *)
Definition inviteCutoff (srv : CleanUpService) (t : Time) : Z :=
  Unix (Add t (neg64 (mul64 (mul64 (UserInviteMaxLifetimeDays (Cfg srv)) 24) Hour))).

Definition expired (srv : CleanUpService) (t : Time) (u : TempUser) : bool :=
  created_at u <=? inviteCutoff srv t.

(** The calls of the deletion up to the statement *)
Definition invite_calls (srv : CleanUpService) (t : Time)
    (answer : Result * option error) : list event :=
  [Ev time_Now t;
   Ev (log_Debug "starting cleanup of expired user invites"
         [("createdBefore",
           VTime (Add t (neg64 (mul64 (mul64 (UserInviteMaxLifetimeDays (Cfg srv)) 24)
                                  Hour))))]) tt;
   Ev (db_Exec deleteInvitesSql [inviteCutoff srv t]) answer].

(** ** Scenarios *)

Definition T0 : Time := 1600000000 * Second.

Definition Day : Duration := 24 * Hour.

(** A service with the images under data/png, a lifetime for temp files and
    invites that live three days *)
Definition service (lifetime : Duration) : CleanUpService :=
  mkService (mkCfg "data/png" lifetime 3 false).

(** A quiet world: a directory listing, a clock that stands at [t], empty
    tables, collaborators that never fail and a scheduler with no case to
    take *)
Definition world (files : list FileInfo) (t : Time) : World :=
  mkWorld "data/png" (Listing files) (fun _ => None) t [] [] [] [] [] [] []
    None None [].

Definition set_later (l : list Time) (w : World) : World :=
  set_clock (now w) l w.

Definition fileA (t : Time) : FileInfo := mkFileInfo "A.png" (t - 2 * Hour).
Definition fileB (t : Time) : FileInfo := mkFileInfo "B.png" (t - 30 * Minute).

(** A file whose age is the lifetime of one hour, to the nanosecond *)
Definition fileEdge : FileInfo := mkFileInfo "edge.png" (T0 - Hour).

(** A file written this instant *)
Definition fileNew : FileInfo := mkFileInfo "new.png" T0.

Definition inviteOld : TempUser := mkTempUser 1 (Unix (Add T0 (- (4 * Day)))).
Definition inviteYoung : TempUser := mkTempUser 2 (Unix (Add T0 (- (2 * Day)))).

(** A quiet world with the two invites in table temp_user *)
Definition world_invites : World :=
  set_temp_user [inviteOld; inviteYoung] (world [] T0).

(** A world whose next statement succeeds without a count *)
Definition world_count_fails : World :=
  set_db_faults [CountFails 0 (ErrOther "no RowsAffected available")]
    world_invites.

(** A service with the brute-force login protection disabled *)
Definition service_unprotected : CleanUpService :=
  mkService (mkCfg "data/png" Hour 3 true).

(** A world for a whole run: two files, two invites, one login attempt of an
    hour ago, a lock service that refuses the first lease, two ticks before
    the Done case is taken, and a cancellation that arrives after twelve more
    calls, in the middle of the first tick *)
Definition world_run : World :=
  mkWorld "data/png" (Listing [fileA T0; fileB T0]) (fun _ => None) T0 []
    [inviteOld; inviteYoung] [mkLoginAttempt 1 (Unix T0 - 3600)] [] []
    [Some ErrPermission] [TickerC; TickerC; CtxDone] None
    (Some (12%nat, ContextCanceled)) [].

(** ** Further views of the recorded calls *)

(** The paths handed to [os.Remove] *)
Definition removal (ev : event) : list string :=
  match ev with
  | Ev (os_Remove p) _ => [p]
  | _ => []
  end.

Definition removals (evs : list event) : list string := flat_map removal evs.

(** The failed removals put on record: the name of the file and the error *)
Definition failure (ev : event) : list (string * error) :=
  match ev with
  | Ev (log_Error msg [(_, VStr name); (_, VErr e)]) _ =>
      if String.eqb msg "Failed to delete temp file" then [(name, e)] else []
  | _ => []
  end.

Definition failures (evs : list event) : list (string * error) :=
  flat_map failure evs.

(** [t], started in [w], comes to a select that blocks for ever, in [w']. *)
Definition blocks {R} (t : itree E R) (w : World) (w' : World) : Prop :=
  exists fuel, exec fuel t w = @Blocked R w'.

(** The invites' lifetime as [deleteExpiredUserInvites] computes it *)
Definition maxInviteLifetime (srv : CleanUpService) : Duration :=
  mul64 (mul64 (UserInviteMaxLifetimeDays (Cfg srv)) 24) Hour.

(** A service whose invites live [days] days *)
Definition service_days (days : Z) : CleanUpService :=
  mkService (mkCfg "data/png" Hour days false).

(** The readings of the clock *)
Definition reading (ev : event) : list Time :=
  match ev with
  | Ev time_Now t => [t]
  | _ => []
  end.

Definition readings (evs : list event) : list Time := flat_map reading evs.

(** The statements handed to the SQL session *)
Definition statement (ev : event) : list (string * list Z) :=
  match ev with
  | Ev (db_Exec sql args) _ => [(sql, args)]
  | _ => []
  end.

Definition statements (evs : list event) : list (string * list Z) :=
  flat_map statement evs.

(** The clock after one reading *)
Definition advance (c : Time * list Time) : Time * list Time :=
  match snd c with
  | [] => c
  | t :: l => (t, l)
  end.

(** [replay w w' evs]: the clock of [w'] and its faults to come are those of
    [w] after the readings and the statements of [evs]. *)
Record replay (w w' : World) (evs : list event) : Prop := mkReplay {
  rp_clock : clock w' = Nat.iter (List.length (readings evs)) advance (clock w);
  rp_faults : db_faults w' = skipn (List.length (statements evs)) (db_faults w)
}.

(** The files a successful [ioutil.ReadDir] listed *)
Definition listing (ev : event) : list FileInfo :=
  match ev with
  | Ev (ioutil_ReadDir _) (files, None) => files
  | _ => []
  end.

Definition listed (evs : list event) : list FileInfo := flat_map listing evs.

(** The removals the system refused: the path and the error *)
Definition refusal (ev : event) : list (string * error) :=
  match ev with
  | Ev (os_Remove p) (Some e) => [(p, e)]
  | _ => []
  end.

Definition refusals (evs : list event) : list (string * error) :=
  flat_map refusal evs.

(** The two counts of the record a pass ends with, "deleted" and "kept" *)
Definition tally (ev : event) : list (Z * Z) :=
  match ev with
  | Ev (log_Debug msg [(_, VInt d); (_, VInt k)]) _ =>
      if String.eqb msg "Found old rendered image to delete" then [(d, k)] else []
  | _ => []
  end.

Definition tallies (evs : list event) : list (Z * Z) := flat_map tally evs.

(** [fullPath := path.Join(service.Cfg.ImagesDir, file.Name())] *)
Definition fullPath (srv : CleanUpService) (f : FileInfo) : string :=
  path_Join (ImagesDir (Cfg srv)) (Name f).

(** What the removal loop over [toDelete] leaves in the record *)
Definition removed (srv : CleanUpService) (toDelete : list FileInfo)
    (evs : list event) : Prop :=
  removals evs = map (fullPath srv) toDelete /\
  refusals evs
  = map (fun ne => (path_Join (ImagesDir (Cfg srv)) (fst ne), snd ne))
      (failures evs) /\
  readings evs = [] /\ listed evs = [] /\ tallies evs = [].

(** What one pass leaves in the record: a removal for each listed file the
    policy selects at the instant the pass read, in the order of the
    listing; a record of each refusal; and counts of the removals and of the
    listing *)
Definition pass_calls (srv : CleanUpService) (evs : list event) : Prop :=
  removals evs
  = map (fullPath srv)
      (filter (stale srv (hd 0 (readings evs))) (listed evs)) /\
  refusals evs
  = map (fun ne => (path_Join (ImagesDir (Cfg srv)) (fst ne), snd ne))
      (failures evs) /\
  (forall d k, In (d, k) (tallies evs) ->
               d = len (removals evs) /\ k = len (listed evs)) /\
  (listed evs = [] \/ exists t, readings evs = [t]).

(** [selected srv evs p]: [p] is the full path of a file that [evs] shows
    listed, and selected by the policy at an instant [evs] shows read. *)
Definition selected (srv : CleanUpService) (evs : list event) (p : string)
    : Prop :=
  exists f t,
    In f (listed evs) /\ In t (readings evs) /\
    shouldCleanupTempFile srv (ModTime f) t = true /\
    p = path_Join (ImagesDir (Cfg srv)) (Name f).

(** Every removal of [evs] is of a selected file. *)
Definition confined (srv : CleanUpService) (evs : list event) : Prop :=
  forall p, In p (removals evs) -> selected srv evs p.

(** A world without the images directory *)
Definition world_missing : World := set_dir_state Missing (world [] T0).

(** A world whose images directory cannot be read *)
Definition world_unreadable : World :=
  set_dir_state (Unreadable ErrPermission) (world [] T0).

(** The errors the bus answered with, as text *)
Definition bus_error (ev : event) : list string :=
  match ev with
  | Ev (bus_Dispatch _) (_, Some e) => [Error e]
  | _ => []
  end.

Definition bus_errors (evs : list event) : list string := flat_map bus_error evs.

(** The Error records whose one field is a text: the three steps that go
    through the bus log [err.Error()], the others log the error itself. *)
Definition error_text (ev : event) : list string :=
  match ev with
  | Ev (log_Error _ [(_, VStr s)]) _ => [s]
  | _ => []
  end.

Definition error_texts (evs : list event) : list string :=
  flat_map error_text evs.

(** Every login-attempt delete of [evs] is dispatched with the protection
    enabled, and reaches back ten minutes from an instant [evs] shows read. *)
Definition ten_minutes_back (srv : CleanUpService) (evs : list event) : Prop :=
  forall c, In c (login_deletes evs) ->
    DisableBruteForceLoginProtection (Cfg srv) = false /\
    exists t, In t (readings evs) /\ c = Add t (Minute * -10).

(** The errors of the bus are all on record, and the login-attempt deletes
    reach back ten minutes. *)
Definition accounted (srv : CleanUpService) (evs : list event) : Prop :=
  bus_errors evs = error_texts evs /\ ten_minutes_back srv evs.

(** The calls of a step that puts its bus errors on record and dispatches
    no login-attempt delete *)
Definition plain (evs : list event) : Prop :=
  bus_errors evs = error_texts evs /\ login_deletes evs = [].

(** * Proofs *)

(** ** Facts about [exec] *)

Section ExecFacts.

Context {R : Type}.

Lemma exec_observe (fuel : nat) (t u : itree E R) (w : World) :
  observe t = observe u -> exec fuel t w = exec fuel u w.
Proof.
  intros H. destruct fuel as [|fuel]; simpl; [reflexivity|].
  rewrite H. reflexivity.
Qed.

Lemma exec_more (fuel : nat) :
  forall (t : itree E R) (w : World) (o : outcome R),
    exec fuel t w = o -> o <> OutOfFuel ->
    forall fuel', (fuel <= fuel')%nat -> exec fuel' t w = o.
Proof.
  induction fuel as [|fuel IH]; intros t w o Hrun Hout fuel' Hle.
  - simpl in Hrun. congruence.
  - destruct fuel' as [|fuel']; [lia|].
    simpl in *. destruct (observe t) as [r|t'|T e k].
    + exact Hrun.
    + apply (IH _ _ _ Hrun Hout). lia.
    + destruct (handle e (arrive w)) as [[a w1]|].
      * apply (IH _ _ _ Hrun Hout). lia.
      * exact Hrun.
Qed.

Lemma runs_functional (t : itree E R) (w : World) r1 w1 r2 w2 :
  runs t w r1 w1 -> runs t w r2 w2 -> r1 = r2 /\ w1 = w2.
Proof.
  intros [f1 H1] [f2 H2].
  assert (E1 : exec (f1 + f2) t w = Returned r1 w1)
    by (apply (exec_more f1); [assumption|discriminate|lia]).
  assert (E2 : exec (f1 + f2) t w = Returned r2 w2)
    by (apply (exec_more f2); [assumption|discriminate|lia]).
  rewrite E1 in E2. inversion E2. split; reflexivity.
Qed.

Lemma runs_ret (r : R) (w : World) : runs (Ret r) w r w.
Proof. exists 1%nat. reflexivity. Qed.

Lemma runs_observe (t u : itree E R) w r w' :
  observe t = observe u -> runs u w r w' -> runs t w r w'.
Proof.
  intros H [fuel Hrun]. exists fuel.
  rewrite (exec_observe fuel t u w H). exact Hrun.
Qed.

Lemma runs_tau (t : itree E R) w r w' : runs t w r w' -> runs (Tau t) w r w'.
Proof. intros [fuel Hrun]. exists (S fuel). exact Hrun. Qed.

End ExecFacts.

Lemma exec_bind {A R} (k : A -> itree E R) (fuel1 : nat) :
  forall (t : itree E A) (w : World) a w1 fuel2 (o : outcome R),
    exec fuel1 t w = Returned a w1 ->
    exec fuel2 (k a) w1 = o -> o <> OutOfFuel ->
    exec (fuel1 + fuel2) (ITree.bind t k) w = o.
Proof.
  induction fuel1 as [|fuel1 IH]; intros t w a w1 fuel2 o Ht Hk Hout.
  - simpl in Ht. discriminate.
  - simpl in Ht.
    change (exec (S fuel1 + fuel2) (ITree.bind t k) w)
      with (match observe (ITree.bind t k) with
            | RetF r => Returned r w
            | TauF t' => exec (fuel1 + fuel2) t' w
            | VisF e k' =>
                match handle e (arrive w) with
                | None => Blocked w
                | Some (x, w') => exec (fuel1 + fuel2) (k' x) (record (Ev e x) w')
                end
            end).
    rewrite observe_bind.
    destruct (observe t) as [r|t'|T e ke].
    + injection Ht as Hr Hw. subst r w.
      assert (Hk' : exec (S (fuel1 + fuel2)) (k a) w1 = o)
        by (apply (exec_more fuel2); [assumption|assumption|lia]).
      simpl in Hk'. exact Hk'.
    + simpl. apply (IH _ _ _ _ _ _ Ht Hk Hout).
    + simpl. destruct (handle e (arrive w)) as [[x w2]|].
      * apply (IH _ _ _ _ _ _ Ht Hk Hout).
      * discriminate.
Qed.

Lemma runs_bind {A R} (t : itree E A) (k : A -> itree E R) w a w1 r w2 :
  runs t w a w1 -> runs (k a) w1 r w2 -> runs (ITree.bind t k) w r w2.
Proof.
  intros [f1 H1] [f2 H2]. exists (f1 + f2)%nat.
  apply (exec_bind k f1 t w a w1 f2 (Returned r w2) H1 H2). discriminate.
Qed.

(** One call: the world answers and records. *)
Lemma runs_trigger {T} (e : E T) (w : World) a w1 :
  handle e (arrive w) = Some (a, w1) ->
  runs (ITree.trigger e) w a (record (Ev e a) w1).
Proof. intros H. exists 2%nat. cbn. rewrite H. reflexivity. Qed.

(** One round of a loop *)
Lemma observe_iter {I R} (body : I -> itree E (I + R)) (i : I) :
  observe (ITree.iter body i)
  = observe (ITree.bind (body i)
               (fun lr => match lr with
                          | inl l => Tau (ITree.iter body l)
                          | inr r => Ret r
                          end)).
Proof. reflexivity. Qed.

(** ** What a run leaves untouched *)

Lemma frame_refl (w : World) : frame w w [].
Proof. split; auto. symmetry. apply app_nil_r. Qed.

Lemma frame_trans (w w1 w2 : World) (evs1 evs2 : list event) :
  frame w w1 evs1 -> frame w1 w2 evs2 -> frame w w2 (evs1 ++ evs2).
Proof.
  intros [c1 p1 r1 x1 h1 l1 g1] [c2 p2 r2 x2 h2 l2 g2]. split.
  - rewrite c2, c1. symmetry. apply app_assoc.
  - congruence.
  - congruence.
  - rewrite x2, x1, length_app, Nat.add_comm. symmetry. apply Nat.iter_add.
  - congruence.
  - unfold leases. rewrite flat_map_app. intros H.
    apply app_eq_nil in H. destruct H as [H1 H2].
    rewrite (l2 H2). exact (l1 H1).
  - unfold login_deletes. rewrite flat_map_app. intros H.
    apply app_eq_nil in H. destruct H as [H1 H2].
    rewrite (g2 H2). exact (g1 H1).
Qed.

Lemma reason_ctx (w : World) : reason w = reason_of (ctx_of w).
Proof. reflexivity. Qed.

Lemma reason_step (s : option error * option (nat * error)) :
  reason_of (ctx_step s) = reason_of s.
Proof. destruct s as [[e|] [[[|k] c]|]]; reflexivity. Qed.

Lemma reason_steps (n : nat) (s : option error * option (nat * error)) :
  reason_of (Nat.iter n ctx_step s) = reason_of s.
Proof.
  induction n as [|n IH]; simpl; [reflexivity|].
  rewrite reason_step. exact IH.
Qed.

(** A run within the frame keeps the reason of the cancellation. *)
Lemma fr_reason (w w' : World) (evs : list event) :
  frame w w' evs -> reason w' = reason w.
Proof.
  intros H. rewrite !reason_ctx, (fr_ctx _ _ _ H). apply reason_steps.
Qed.

Ltac world_cases :=
  repeat match goal with
         | |- context [match ?x with _ => _ end] => destruct x; simpl
         end.

Lemma arrive_is_set_ctx (w : World) : exists e c, arrive w = set_ctx e c w.
Proof.
  unfold arrive. destruct w as [dp ds re nw lt tu la df ba lk ch ce ci cs].
  simpl. destruct ce as [e|]; [exists (Some e), ci; reflexivity|].
  destruct ci as [[[|k] e]|]; eexists _, _; reflexivity.
Qed.

Lemma ctx_arrive (w : World) : ctx_of (arrive w) = ctx_step (ctx_of w).
Proof.
  unfold arrive, ctx_of, ctx_step.
  destruct (ctx_err w) as [e|] eqn:He; [rewrite He; reflexivity|].
  destruct (cancel_in w) as [[[|k] e]|] eqn:Hc; simpl;
    rewrite ?He, ?Hc; reflexivity.
Qed.

Lemma reason_arrive (w : World) : reason (arrive w) = reason w.
Proof. rewrite !reason_ctx, ctx_arrive. apply reason_step. Qed.

Lemma arrive_calls (w : World) : calls (arrive w) = calls w.
Proof. destruct (arrive_is_set_ctx w) as (e & c & ->). reflexivity. Qed.

Lemma arrive_chosen (w : World) : chosen (arrive w) = chosen w.
Proof. destruct (arrive_is_set_ctx w) as (e & c & ->). reflexivity. Qed.

Lemma arrive_login (w : World) : login_attempt (arrive w) = login_attempt w.
Proof. destruct (arrive_is_set_ctx w) as (e & c & ->). reflexivity. Qed.

Lemma reason_record ev w : reason (record ev w) = reason w.
Proof. reflexivity. Qed.

(** Every call but a select is answered, and leaves the rest as it is. *)
Lemma handle_unchanged {T} (e : E T) (w : World) :
  waits e = false ->
  exists a w1, handle e w = Some (a, w1) /\ unchanged w w1 (Ev e a).
Proof.
  intros Hw. destruct e; simpl in Hw; try discriminate; simpl.
  - eexists _, _. split; [reflexivity|]. split; simpl; auto.
  - eexists _, _. split; [reflexivity|]. split; simpl; auto.
  - destruct (fs_remove w name) as [a w1] eqn:Hrm.
    exists a, w1. split; [reflexivity|].
    unfold fs_remove in Hrm.
    destruct (remove_err w name); [inversion Hrm; subst; split; simpl; auto|].
    destruct (dir_state w) as [|e|files];
      [| |destruct (existsb (is_path w name) files)];
      inversion Hrm; subst; split; simpl; auto.
  - unfold clock_read. eexists _, _. split; [reflexivity|].
    destruct (later w); split; simpl; auto.
  - eexists _, _. split; [reflexivity|]. split; simpl; auto.
  - eexists _, _. split; [reflexivity|]. split; simpl; auto.
  - eexists _, _. split; [reflexivity|]. split; simpl; auto.
  - destruct (bus_dispatch w cmd) as [a w1] eqn:Hb.
    exists a, w1. split; [reflexivity|].
    unfold bus_dispatch, next_bus in Hb.
    destruct (bus_answers w) as [|[n [err|]] l]; destruct cmd;
      inversion Hb; subst; split; simpl; auto; discriminate.
  - destruct (lock_acquire w) as [a w1] eqn:Hl.
    exists a, w1. split; [reflexivity|].
    unfold lock_acquire in Hl.
    destruct (lock_answers w); inversion Hl; subst; split; simpl; auto;
      discriminate.
  - destruct (db_exec w sql args) as [a w1] eqn:Hd.
    exists a, w1. split; [reflexivity|].
    unfold db_exec, next_fault in Hd.
    destruct (db_faults w) as [|[|e|n e] l]; destruct (parse_delete sql) as [st|];
      destruct args as [|bound [|x args]];
      try destruct (String.eqb (del_table st) "temp_user");
      try destruct (temp_user_column (del_column st));
      inversion Hd; subst; split; simpl; auto.
Qed.

(** One call of a run: a pending cancellation comes nearer, the world
    answers, the call is put on record. *)
Lemma handle_frame {T} (e : E T) (w : World) :
  waits e = false ->
  exists a w1,
    handle e (arrive w) = Some (a, w1) /\ frame w (record (Ev e a) w1) [Ev e a].
Proof.
  intros Hw.
  destruct (handle_unchanged e (arrive w) Hw) as (a & w1 & Hh & [c p r x h l g]).
  exists a, w1. split; [exact Hh|].
  destruct (arrive_is_set_ctx w) as (e0 & c0 & H0).
  split; simpl.
  - rewrite c, arrive_calls. reflexivity.
  - rewrite p, H0. reflexivity.
  - rewrite r, H0. reflexivity.
  - change (ctx_of w1 = ctx_step (ctx_of w)). rewrite x. apply ctx_arrive.
  - rewrite h. apply arrive_chosen.
  - rewrite app_nil_r. intros Hl. rewrite (l Hl), H0. reflexivity.
  - rewrite app_nil_r. intros Hg. rewrite (g Hg). apply arrive_login.
Qed.

(** ** Soundness and rules of the logic *)

Lemma safeF_sound {R : Type} (Q : list event -> R -> Prop) (ot : itree' E R) :
  safeF Q ot ->
  forall (t : itree E R) (w : World), observe t = ot ->
    exists r w' evs, runs t w r w' /\ frame w w' evs /\ Q evs r.
Proof.
  induction 1 as [Q r HQ|Q t' _ IH|Q T e k Hw _ IH]; intros t w Hobs.
  - exists r, w, []. split; [|split; [apply frame_refl|exact HQ]].
    exists 1%nat. simpl. rewrite Hobs. reflexivity.
  - destruct (IH t' w eq_refl) as (r & w' & evs & [fuel Hrun] & Hfr & HQ).
    exists r, w', evs. split; [|split; assumption].
    exists (S fuel). simpl. rewrite Hobs. exact Hrun.
  - destruct (handle_frame e w Hw) as (a & w1 & Hh & Hfr1).
    destruct (IH a (k a) (record (Ev e a) w1) eq_refl)
      as (r & w' & evs & [fuel Hrun] & Hfr & HQ).
    exists r, w', (Ev e a :: evs). split; [|split].
    + exists (S fuel). simpl. rewrite Hobs, Hh. exact Hrun.
    + change (Ev e a :: evs) with ([Ev e a] ++ evs).
      apply (frame_trans _ (record (Ev e a) w1)); [exact Hfr1|exact Hfr].
    + exact HQ.
Qed.

(** Soundness: a safe tree returns from every world. *)
Lemma safe_sound {R : Type} (Q : list event -> R -> Prop) (t : itree E R)
    (w : World) :
  safe Q t -> exists r w' evs, runs t w r w' /\ frame w w' evs /\ Q evs r.
Proof. intros H. exact (safeF_sound Q (observe t) H t w eq_refl). Qed.

Lemma safeF_weaken {R : Type} (Q : list event -> R -> Prop) (ot : itree' E R) :
  safeF Q ot ->
  forall Q' : list event -> R -> Prop,
    (forall evs r, Q evs r -> Q' evs r) -> safeF Q' ot.
Proof.
  induction 1 as [Q r HQ|Q t' _ IH|Q T e k Hw _ IH]; intros Q' Himp.
  - apply safe_ret. apply Himp. exact HQ.
  - apply safe_tau. apply IH. exact Himp.
  - apply safe_vis; [exact Hw|]. intros a. apply (IH a).
    intros evs r. apply Himp.
Qed.

Lemma safe_weaken {R : Type} (Q Q' : list event -> R -> Prop) (t : itree E R) :
  (forall evs r, Q evs r -> Q' evs r) -> safe Q t -> safe Q' t.
Proof. intros Himp H. exact (safeF_weaken Q (observe t) H Q' Himp). Qed.

Lemma safeF_bind {A R : Type} (k : A -> itree E R)
    (P : list event -> A -> Prop) (ot : itree' E A) :
  safeF P ot ->
  forall (Q : list event -> R -> Prop) (t : itree E A),
    observe t = ot ->
    (forall evs a, P evs a -> safe (fun evs' r => Q (evs ++ evs') r) (k a)) ->
    safe Q (ITree.bind t k).
Proof.
  induction 1 as [P a HP|P t' _ IH|P T e ke Hw _ IH]; intros Q t Hobs Hk;
    unfold safe; rewrite observe_bind, Hobs.
  - exact (Hk [] a HP).
  - simpl. apply safe_tau. apply (IH Q t' eq_refl Hk).
  - simpl. apply safe_vis; [exact Hw|]. intros x.
    apply (IH x (fun evs r => Q (Ev e x :: evs) r) (ke x) eq_refl).
    intros evs a HP. exact (Hk (Ev e x :: evs) a HP).
Qed.

(** Sequencing: the calls of [t] come first, those of [k] after. *)
Lemma safe_bind {A R : Type} (t : itree E A) (k : A -> itree E R)
    (P : list event -> A -> Prop) (Q : list event -> R -> Prop) :
  safe P t ->
  (forall evs a, P evs a -> safe (fun evs' r => Q (evs ++ evs') r) (k a)) ->
  safe Q (ITree.bind t k).
Proof. intros Ht Hk. exact (safeF_bind k P (observe t) Ht Q t eq_refl Hk). Qed.

Lemma safe_Ret {R : Type} (Q : list event -> R -> Prop) (r : R) :
  Q [] r -> safe Q (Ret r).
Proof. intros H. apply safe_ret. exact H. Qed.

(** ** The calls of each step, whatever the world answers *)

Lemma schedule_app (a b : list event) :
  schedule (a ++ b) = schedule a ++ schedule b.
Proof. apply flat_map_app. Qed.

Lemma leases_app (a b : list event) : leases (a ++ b) = leases a ++ leases b.
Proof. apply flat_map_app. Qed.

Lemma login_deletes_app (a b : list event) :
  login_deletes (a ++ b) = login_deletes a ++ login_deletes b.
Proof. apply flat_map_app. Qed.

Lemma step_calls_app (s1 s2 : list Mark) (a b : list event) :
  step_calls s1 a -> step_calls s2 b -> step_calls (s1 ++ s2) (a ++ b).
Proof.
  intros (H1 & H2 & H3) (K1 & K2 & K3). unfold step_calls.
  rewrite schedule_app, leases_app, login_deletes_app, H1, H2, H3, K1, K2, K3.
  auto.
Qed.

Ltac resume :=
  match goal with
  | |- safeF ?Q (observe (ITree.subst ?k (Ret ?x))) =>
      change (safe Q (k x)); cbv beta
  | |- safeF ?Q (observe (ITree.bind (Ret ?x) ?k)) =>
      change (safe Q (k x)); cbv beta
  | |- safeF ?Q (observe (ITree.bind ?t ?k)) =>
      change (safe Q (ITree.bind t k))
  | |- safeF ?Q (observe ?t) => change (safe Q t)
  end.
Ltac enter := unfold safe; cbn.
Ltac call := enter; apply safe_vis; [reflexivity|intros ?; cbn; try resume].
Ltac done_calls := enter; apply safe_ret; cbn; auto.

Lemma removeAll_safe (srv : CleanUpService) (toDelete : list FileInfo) :
  safe (fun evs _ => step_calls [] evs) (removeAll srv toDelete).
Proof.
  induction toDelete as [|file more IH].
  - apply safe_Ret. repeat split.
  - call. destruct a as [e|].
    + call. revert IH. apply safe_weaken.
      intros evs _ H. apply (step_calls_app [] [] [_; _] _); [repeat split|exact H].
    + enter. resume. revert IH. apply safe_weaken.
      intros evs _ H. apply (step_calls_app [] [] [_] _); [repeat split|exact H].
Qed.

Lemma cleanUpTmpFiles_safe (srv : CleanUpService) :
  safe (fun evs _ => step_calls [Op TempFiles] evs) (cleanUpTmpFiles srv).
Proof.
  unfold cleanUpTmpFiles. call.
  destruct (os_IsNotExist a); [done_calls; repeat split|].
  call. destruct a0 as [files [e|]].
  - call. done_calls. repeat split.
  - call.
    apply (safe_bind _ _ (fun evs _ => step_calls [] evs));
      [apply removeAll_safe|].
    intros evs _ H. call. done_calls.
    apply (step_calls_app [Op TempFiles] [] [_; _; _] (evs ++ [_]));
      [repeat split|].
    apply (step_calls_app [] [] evs [_]); [exact H|repeat split].
Qed.

Lemma deleteExpiredSnapshots_safe (srv : CleanUpService) :
  safe (fun evs _ => step_calls [Op Snapshots] evs) (deleteExpiredSnapshots srv).
Proof.
  unfold deleteExpiredSnapshots. call.
  destruct a as [cmd [e|]]; call; done_calls; repeat split.
Qed.

Lemma deleteExpiredDashboardVersions_safe (srv : CleanUpService) :
  safe (fun evs _ => step_calls [Op DashboardVersions] evs)
    (deleteExpiredDashboardVersions srv).
Proof.
  unfold deleteExpiredDashboardVersions. call.
  destruct a as [cmd [e|]]; call; done_calls; repeat split.
Qed.

Lemma deleteExpiredUserInvites_safe (srv : CleanUpService) (ctx : Context) :
  safe (fun evs _ => step_calls [Op UserInvites] evs)
    (deleteExpiredUserInvites srv ctx).
Proof.
  unfold deleteExpiredUserInvites, WithDbSession. call. call. call.
  destruct a1 as [[n [e'|]] [e|]];
    try (done_calls; repeat split); call; done_calls; repeat split.
Qed.

(** The guarded body: with the protection disabled it makes no call. *)
Lemma deleteOldLoginAttempts_safe (srv : CleanUpService) :
  safe (fun evs _ =>
          schedule evs = [] /\ leases evs = [] /\
          (DisableBruteForceLoginProtection (Cfg srv) = true -> evs = []))
    (deleteOldLoginAttempts srv).
Proof.
  unfold deleteOldLoginAttempts.
  destruct (DisableBruteForceLoginProtection (Cfg srv)).
  - done_calls.
  - call. call. destruct a0 as [cmd [e|]]; call; done_calls;
      repeat split; discriminate.
Qed.

Lemma tick_calls_intro (srv : CleanUpService) (evs1 evs2 evs3 evs4 last : list event) :
  step_calls [Op TempFiles] evs1 ->
  step_calls [Op Snapshots] evs2 ->
  step_calls [Op DashboardVersions] evs3 ->
  step_calls [Op UserInvites] evs4 ->
  schedule last = [Op LoginAttempts] ->
  leases last = [Minute * 10] ->
  (DisableBruteForceLoginProtection (Cfg srv) = true -> login_deletes last = []) ->
  tick_calls srv (evs1 ++ evs2 ++ evs3 ++ evs4 ++ last).
Proof.
  intros (S1 & L1 & D1) (S2 & L2 & D2) (S3 & L3 & D3) (S4 & L4 & D4) Hs Hl Hd.
  unfold tick_calls.
  rewrite !schedule_app, !leases_app, !login_deletes_app.
  rewrite S1, S2, S3, S4, L1, L2, L3, L4, D1, D2, D3, D4, Hs, Hl.
  repeat split. exact Hd.
Qed.

Lemma lockedLoginAttempts_safe (srv : CleanUpService) (ctx : Context) :
  safe (fun evs _ => locked_calls srv evs) (lockedLoginAttempts srv ctx).
Proof.
  unfold lockedLoginAttempts, LockAndExecute. call. destruct a as [e|].
  - call. done_calls. repeat split.
  - match goal with
    | |- safe ?Q (ITree.subst ?k1 (ITree.subst ?k2 (Ret None))) =>
        change (safe Q (ITree.bind
                          (ITree.bind (deleteOldLoginAttempts srv)
                             (fun _ => Ret (@None error))) k1))
    end.
    apply (safe_bind _ _
             (fun evs r =>
                r = None /\ schedule evs = [] /\ leases evs = [] /\
                (DisableBruteForceLoginProtection (Cfg srv) = true -> evs = []))).
    + eapply safe_bind; [apply deleteOldLoginAttempts_safe|].
      intros evs u H. cbv beta in *. apply safe_Ret.
      rewrite app_nil_r. split; [reflexivity|exact H].
    + intros evs r (-> & Hs & Hl & Hd). done_calls.
      change (locked_calls srv ([Ev (lock_Acquire "delete old login attempts"
                                       (Minute * 10)) None] ++ evs ++ [])).
      unfold locked_calls.
      rewrite app_nil_r, schedule_app, leases_app, Hs, Hl.
      repeat split. intros Hdis. rewrite (Hd Hdis). reflexivity.
Qed.

Lemma tick_safe (srv : CleanUpService) (ctx : Context) :
  safe (fun evs _ => tick_calls srv evs) (tick srv ctx).
Proof.
  unfold tick.
  eapply safe_bind; [apply cleanUpTmpFiles_safe|]. intros evs1 u1 H1. cbv beta in *.
  eapply safe_bind; [apply deleteExpiredSnapshots_safe|]. intros evs2 u2 H2. cbv beta in *.
  eapply safe_bind; [apply deleteExpiredDashboardVersions_safe|]. intros evs3 u3 H3. cbv beta in *.
  eapply safe_bind; [apply deleteExpiredUserInvites_safe|]. intros evs4 u4 H4. cbv beta in *.
  eapply safe_weaken; [|apply lockedLoginAttempts_safe].
  intros evs5 u5 (Hs & Hl & Hd).
  apply (tick_calls_intro srv evs1 evs2 evs3 evs4 evs5 H1 H2 H3 H4 Hs Hl Hd).
Qed.

(** ** The loop *)

Lemma select_tick (ctx : Context) (w : World) (l : list Chosen) :
  chosen w = TickerC :: l ->
  handle (select_ ctx) (arrive w) = Some (TickerC, set_chosen l (arrive w)).
Proof.
  intros H. simpl. unfold select_case.
  rewrite arrive_chosen, H. reflexivity.
Qed.

Lemma select_done (ctx : Context) (w : World) (l : list Chosen) (e : error) :
  chosen w = CtxDone :: l -> reason w = Some e ->
  handle (select_ ctx) (arrive w)
  = Some (CtxDone, set_ctx (Some e) None (set_chosen l (arrive w))).
Proof.
  intros H He. simpl. unfold select_case.
  rewrite arrive_chosen, H, reason_arrive, He. reflexivity.
Qed.

Lemma arrive_cancelled (w : World) (e : error) :
  ctx_err w = Some e -> arrive w = w.
Proof. intros H. unfold arrive. rewrite H. reflexivity. Qed.

Lemma loop_runs (srv : CleanUpService) (ctx : Context) (n : nat) :
  forall (w : World) (rest : list Chosen) (e : error),
    chosen w = repeat TickerC n ++ CtxDone :: rest ->
    reason w = Some e ->
    exists w' evs,
      runs (loop srv ctx) w (Some e) w' /\
      calls w' = calls w ++ evs /\
      schedule evs = loop_schedule n /\
      leases evs = repeat (Minute * 10) n /\
      (DisableBruteForceLoginProtection (Cfg srv) = true ->
       login_deletes evs = [] /\ login_attempt w' = login_attempt w) /\
      ctx_err w' = Some e /\ chosen w' = rest.
Proof.
  induction n as [|n IH]; intros w rest e Hch Hre; simpl in Hch.
  - pose proof (select_done ctx w rest e Hch Hre) as Hsel.
    set (w1 := record (Ev (select_ ctx) CtxDone)
                 (set_ctx (Some e) None (set_chosen rest (arrive w)))).
    assert (Herr : handle (ctx_Err ctx) (arrive w1) = Some (Some e, w1))
      by (rewrite (arrive_cancelled w1 e eq_refl); reflexivity).
    exists (record (Ev (ctx_Err ctx) (Some e)) w1),
      [Ev (select_ ctx) CtxDone; Ev (ctx_Err ctx) (Some e)].
    split; [|repeat split].
    + unfold loop. eapply runs_observe; [apply observe_iter|].
      eapply runs_bind.
      * eapply runs_bind; [apply (runs_trigger _ _ _ _ Hsel)|].
        cbv beta iota.
        eapply runs_bind; [apply (runs_trigger _ _ _ _ Herr)|apply runs_ret].
      * cbv beta iota. apply runs_ret.
    + simpl. rewrite arrive_calls, <- app_assoc. reflexivity.
    + simpl. apply arrive_login.
  - pose proof (select_tick ctx w _ Hch) as Hsel.
    set (l := repeat TickerC n ++ CtxDone :: rest) in *.
    set (w1 := record (Ev (select_ ctx) TickerC) (set_chosen l (arrive w))).
    destruct (safe_sound _ (tick srv ctx) w1 (tick_safe srv ctx))
      as ([] & w2 & evs & Hrun & Hfr & Hs & Hl & Hd).
    assert (Hch2 : chosen w2 = l) by (rewrite (fr_chosen _ _ _ Hfr); reflexivity).
    assert (Hre2 : reason w2 = Some e).
    { rewrite (fr_reason _ _ _ Hfr). unfold w1.
      rewrite reason_record. change (reason (arrive w) = Some e).
      rewrite reason_arrive. exact Hre. }
    destruct (IH w2 rest e Hch2 Hre2)
      as (w' & evs' & Hrun' & Hc' & Hs' & Hl' & Hd' & He' & Hr').
    exists w', (Ev (select_ ctx) TickerC :: evs ++ evs').
    split; [|repeat split].
    + unfold loop. eapply runs_observe; [apply observe_iter|].
      eapply runs_bind.
      * eapply runs_bind; [apply (runs_trigger _ _ _ _ Hsel)|].
        cbv beta iota. fold w1.
        eapply runs_bind; [exact Hrun|apply runs_ret].
      * cbv beta iota. apply runs_tau. exact Hrun'.
    + rewrite Hc', (fr_calls _ _ _ Hfr). unfold w1. simpl.
      rewrite arrive_calls, <- !app_assoc. reflexivity.
    + change (schedule ([Ev (select_ ctx) TickerC] ++ evs ++ evs')
              = loop_schedule (S n)).
      rewrite !schedule_app, Hs, Hs'. unfold loop_schedule. simpl.
      reflexivity.
    + change (leases ([Ev (select_ ctx) TickerC] ++ evs ++ evs')
              = repeat (Minute * 10) (S n)).
      rewrite !leases_app, Hl, Hl'. reflexivity.
    + change (login_deletes ([Ev (select_ ctx) TickerC] ++ evs ++ evs') = []).
      rewrite !login_deletes_app, (Hd H), (proj1 (Hd' H)). reflexivity.
    + rewrite (proj2 (Hd' H)), (fr_login _ _ _ Hfr (Hd H)). unfold w1. simpl.
      apply arrive_login.
    + exact He'.
    + exact Hr'.
Qed.

Lemma Run_runs (srv : CleanUpService) (ctx : Context) (n : nat)
    (w : World) (rest : list Chosen) (e : error) :
  chosen w = repeat TickerC n ++ CtxDone :: rest ->
  reason w = Some e ->
  exists w' evs,
    runs (Run srv ctx) w (Some e) w' /\
    calls w' = calls w ++ evs /\
    schedule evs = Run_schedule n /\
    leases evs = repeat (Minute * 10) n /\
    (DisableBruteForceLoginProtection (Cfg srv) = true ->
     login_deletes evs = [] /\ login_attempt w' = login_attempt w) /\
    ctx_err w' = Some e.
Proof.
  intros Hch Hre.
  destruct (safe_sound _ (cleanUpTmpFiles srv) w (cleanUpTmpFiles_safe srv))
    as ([] & w0 & evs0 & Hrun0 & Hfr0 & Hs0 & Hl0 & Hd0).
  set (w1 := record (Ev (time_NewTicker (Minute * 10)) tt) (arrive w0)).
  assert (Hfr1 : frame w0 w1 [Ev (time_NewTicker (Minute * 10)) tt]).
  { destruct (handle_frame (time_NewTicker (Minute * 10)) w0 eq_refl)
      as (a & w2 & Hh & Hfr). simpl in Hh. injection Hh as <- <-. exact Hfr. }
  assert (Hch1 : chosen w1 = repeat TickerC n ++ CtxDone :: rest)
    by (rewrite (fr_chosen _ _ _ Hfr1), (fr_chosen _ _ _ Hfr0); exact Hch).
  assert (Hre1 : reason w1 = Some e)
    by (rewrite (fr_reason _ _ _ Hfr1), (fr_reason _ _ _ Hfr0); exact Hre).
  destruct (loop_runs srv ctx n w1 rest e Hch1 Hre1)
    as (w' & evs & Hrun & Hc & Hs & Hl & Hd & He & _).
  exists w', (evs0 ++ [Ev (time_NewTicker (Minute * 10)) tt] ++ evs).
  split; [|repeat split].
  - unfold Run. eapply runs_bind; [exact Hrun0|]. cbv beta.
    eapply runs_bind;
      [apply (runs_trigger (time_NewTicker (Minute * 10)) w0 tt (arrive w0));
       reflexivity|].
    exact Hrun.
  - rewrite Hc, (fr_calls _ _ _ Hfr1), (fr_calls _ _ _ Hfr0), <- !app_assoc.
    reflexivity.
  - rewrite !schedule_app, Hs0, Hs. reflexivity.
  - rewrite !leases_app, Hl0, Hl. reflexivity.
  - rewrite !login_deletes_app, Hd0, (proj1 (Hd H)). reflexivity.
  - rewrite (proj2 (Hd H)), (fr_login _ _ _ Hfr1 eq_refl).
    exact (fr_login _ _ _ Hfr0 Hd0).
  - exact He.
Qed.

(** ** The temp-file pass over a readable directory *)

Lemma collect_filter (srv : CleanUpService) (now : Time) (files : list FileInfo) :
  collect srv now files
  = filter (fun f => shouldCleanupTempFile srv (ModTime f) now) files.
Proof.
  unfold collect.
  enough (H : forall acc,
             fold_left
               (fun toDelete file =>
                  if shouldCleanupTempFile srv (ModTime file) now
                  then toDelete ++ [file] else toDelete) files acc
             = acc ++ filter (fun f => shouldCleanupTempFile srv (ModTime f) now)
                        files) by apply (H []).
  induction files as [|f files IH]; intros acc; simpl.
  - symmetry. apply app_nil_r.
  - rewrite IH. destruct (shouldCleanupTempFile srv (ModTime f) now).
    + rewrite <- app_assoc. reflexivity.
    + reflexivity.
Qed.

Lemma arrive_disk (w : World) :
  disk (arrive w) = disk w /\ clock (arrive w) = clock w /\
  dir_state (arrive w) = dir_state w.
Proof. unfold arrive. world_cases; auto. Qed.

Lemma filter_filter {A} (g h : A -> bool) (l : list A) :
  filter g (filter h l) = filter (fun x => h x && g x) l.
Proof.
  induction l as [|x l IH]; simpl; [reflexivity|].
  destruct (h x); simpl; [destruct (g x)|]; rewrite IH; reflexivity.
Qed.

Lemma filter_none {A} (g : A -> bool) (l : list A) :
  existsb g l = false -> filter (fun x => negb (g x)) l = l.
Proof.
  induction l as [|x l IH]; simpl; [reflexivity|].
  intros H. apply orb_false_iff in H. destruct H as [Hx Hl].
  rewrite Hx. simpl. rewrite (IH Hl). reflexivity.
Qed.

(** One [os.Remove] on a listed directory *)
Lemma fs_remove_listing (w : World) (cur : list FileInfo) (d : FileInfo) :
  dir_state w = Listing cur ->
  exists a w1,
    fs_remove w (path_Join (dir_path w) (Name d)) = (a, w1) /\
    dir_state w1
    = Listing (filter (fun f => negb (hits (dir_path w) (remove_err w) d f)) cur) /\
    disk w1 = disk w /\ clock w1 = clock w.
Proof.
  intros Hdir. unfold fs_remove, hits. rewrite Hdir.
  destruct (remove_err w (path_Join (dir_path w) (Name d))) as [e|].
  - exists (Some e), w. repeat split. rewrite Hdir. f_equal.
    symmetry. apply filter_none. clear Hdir.
    induction cur; simpl; auto.
  - destruct (existsb (is_path w (path_Join (dir_path w) (Name d))) cur) eqn:Hex.
    + eexists _, _. split; [reflexivity|]. repeat split.
    + exists (Some ErrNotExist), w. repeat split. rewrite Hdir. f_equal.
      symmetry. apply (filter_none _ _ Hex).
Qed.

Lemma removeAll_listing (srv : CleanUpService) (toDelete : list FileInfo) :
  forall (w : World) (cur : list FileInfo),
    ImagesDir (Cfg srv) = dir_path w ->
    dir_state w = Listing cur ->
    exists w' evs,
      runs (removeAll srv toDelete) w tt w' /\
      calls w' = calls w ++ evs /\
      dir_state w'
      = Listing (filter (fun f => negb (existsb
                                           (fun d => hits (dir_path w) (remove_err w) d f)
                                           toDelete)) cur) /\
      disk w' = disk w /\ clock w' = clock w.
Proof.
  induction toDelete as [|d more IH]; intros w cur Hpath Hdir.
  - exists w, []. split; [apply runs_ret|]. repeat split.
    + symmetry. apply app_nil_r.
    + rewrite Hdir. f_equal. symmetry.
      apply (filter_none (fun _ => false)).
      clear Hdir. induction cur; simpl; auto.
  - destruct (arrive_disk w) as (Ad & Ac & As).
    assert (Ap : dir_path (arrive w) = dir_path w) by (injection Ad; auto).
    assert (Ar : remove_err (arrive w) = remove_err w) by (injection Ad; auto).
    destruct (fs_remove_listing (arrive w) cur d (eq_trans As Hdir))
      as (a & w1 & Hrm & Hdir1 & Hd1 & Hc1).
    rewrite Ap, Ar in Hdir1. rewrite Ap in Hrm.
    set (ev := Ev (os_Remove (path_Join (ImagesDir (Cfg srv)) (Name d))) a).
    assert (Hstep : runs (ITree.trigger
                            (os_Remove (path_Join (ImagesDir (Cfg srv)) (Name d))))
                      w a (record ev w1)).
    { apply runs_trigger. simpl. rewrite Hpath, Hrm. reflexivity. }
    assert (Hcalls1 : calls w1 = calls w).
    { rewrite <- (arrive_calls w). unfold fs_remove in Hrm.
      destruct (remove_err (arrive w) _); [injection Hrm as _ <-; reflexivity|].
      rewrite (eq_trans As Hdir) in Hrm.
      destruct (existsb _ cur); injection Hrm as _ <-; reflexivity. }
    assert (Hlog : exists w2 evs2,
               runs (match a with
                     | Some e =>
                         ITree.trigger
                           (log_Error "Failed to delete temp file"
                              [("file", VStr (Name d)); ("error", VErr e)])
                     | None => Ret tt
                     end) (record ev w1) tt w2 /\
               calls w2 = calls w ++ ev :: evs2 /\
               dir_state w2 = dir_state w1 /\ disk w2 = disk w1 /\
               clock w2 = clock w1).
    { destruct a as [e|].
      - destruct (arrive_disk (record ev w1)) as (Bd & Bc & Bs).
        eexists _, [_]. split; [apply runs_trigger; reflexivity|].
        repeat split; try assumption.
        simpl. rewrite (arrive_calls (record ev w1)).
        simpl. rewrite Hcalls1, <- app_assoc. reflexivity.
      - exists (record ev w1), []. split; [apply runs_ret|].
        repeat split. simpl. rewrite Hcalls1. reflexivity. }
    destruct Hlog as (w2 & evs2 & Hrun2 & Hcalls2 & Hs2 & Hd2 & Hc2).
    assert (Hp2 : dir_path w2 = dir_path w)
      by (transitivity (dir_path w1);
          [injection Hd2; auto|transitivity (dir_path (arrive w));
                                [injection Hd1; auto|exact Ap]]).
    assert (Hr2 : remove_err w2 = remove_err w)
      by (transitivity (remove_err w1);
          [injection Hd2; auto|transitivity (remove_err (arrive w));
                                [injection Hd1; auto|exact Ar]]).
    destruct (IH w2 _ (eq_trans Hpath (eq_sym Hp2))
                (eq_trans Hs2 Hdir1))
      as (w' & evs & Hrun & Hcalls & Hdir' & Hd' & Hc').
    exists w', (ev :: evs2 ++ evs). split; [|repeat split].
    + cbn [removeAll]. eapply runs_bind; [exact Hstep|]. cbv beta.
      eapply runs_bind; [exact Hrun2|exact Hrun].
    + rewrite Hcalls, Hcalls2, <- app_assoc. reflexivity.
    + rewrite Hdir', Hp2, Hr2, filter_filter. f_equal.
      apply filter_ext. intros f. simpl.
      rewrite negb_orb. reflexivity.
    + rewrite Hd', Hd2, Hd1. exact Ad.
    + rewrite Hc', Hc2, Hc1. exact Ac.
Qed.

Lemma disk_inv (w w' : World) :
  disk w' = disk w -> dir_path w' = dir_path w /\ remove_err w' = remove_err w.
Proof. unfold disk. intros H. injection H as H1 H2. split; assumption. Qed.

Lemma clock_inv (w w' : World) :
  clock w' = clock w -> now w' = now w /\ later w' = later w.
Proof. unfold clock. intros H. injection H as H1 H2. split; assumption. Qed.

Lemma after_fields (ev : event) (w : World) :
  disk (after ev w) = disk w /\ clock (after ev w) = clock w /\
  dir_state (after ev w) = dir_state w /\ calls (after ev w) = calls w ++ [ev].
Proof.
  destruct (arrive_disk w) as (Hd & Hc & Hs).
  unfold after. repeat split; try assumption.
  simpl. rewrite arrive_calls. reflexivity.
Qed.

(** The pass over a directory that lists [files]: what is left on disk, the
    clock after its one reading, and the record it ends with. *)
Lemma cleanUpTmpFiles_listing (srv : CleanUpService) (w : World)
    (files : list FileInfo) :
  ImagesDir (Cfg srv) = dir_path w ->
  dir_state w = Listing files ->
  exists w' evs,
    runs (cleanUpTmpFiles srv) w tt w' /\
    calls w' = calls w ++ evs ++ [found_log srv (now w) files] /\
    dir_state w'
    = Listing (filter
                 (fun f => negb (existsb
                                   (fun d => hits (dir_path w) (remove_err w) d f)
                                   (filter (stale srv (now w)) files)))
                 files) /\
    disk w' = disk w /\
    now w' = hd (now w) (later w) /\ later w' = tl (later w).
Proof.
  intros Hpath Hdir.
  set (dir := ImagesDir (Cfg srv)) in *.
  (* os.Stat *)
  set (wA := after (Ev (os_Stat dir) None) w).
  destruct (after_fields (Ev (os_Stat dir) None) w) as (Ad & Ac & As & Al).
  fold wA in Ad, Ac, As, Al.
  destruct (disk_inv _ _ Ad) as [Ap Ar]. destruct (clock_inv _ _ Ac) as [An Ala].
  destruct (arrive_disk w) as (Xd & Xc & Xs).
  destruct (disk_inv _ _ Xd) as [Xp Xr].
  assert (HA : runs (ITree.trigger (os_Stat dir)) w None wA).
  { apply runs_trigger. simpl. unfold fs_stat.
    rewrite Xp, <- Hpath, String.eqb_refl, Xs, Hdir. reflexivity. }
  (* ioutil.ReadDir *)
  set (evB := Ev (ioutil_ReadDir dir) (files, None)).
  set (wB := after evB wA).
  destruct (after_fields evB wA) as (Bd & Bc & Bs & Bl). fold wB in Bd, Bc, Bs, Bl.
  destruct (disk_inv _ _ Bd) as [Bp Br]. destruct (clock_inv _ _ Bc) as [Bn Bla].
  destruct (arrive_disk wA) as (Yd & Yc & Ys).
  destruct (disk_inv _ _ Yd) as [Yp Yr].
  assert (HB : runs (ITree.trigger (ioutil_ReadDir dir)) wA (files, None) wB).
  { apply runs_trigger. simpl. unfold fs_readdir.
    rewrite Yp, Ap, <- Hpath, String.eqb_refl, Ys, As, Hdir. reflexivity. }
  (* time.Now *)
  set (evC := Ev time_Now (now w)).
  set (wC := record evC (snd (clock_read (arrive wB)))).
  destruct (arrive_disk wB) as (Zd & Zc & Zs).
  destruct (disk_inv _ _ Zd) as [Zp Zr]. destruct (clock_inv _ _ Zc) as [Zn Zla].
  assert (Hnow : now (arrive wB) = now w) by congruence.
  assert (Hlater : later (arrive wB) = later w) by congruence.
  assert (HC : runs (ITree.trigger time_Now) wB (now w) wC).
  { unfold wC, evC. rewrite <- Hnow. apply runs_trigger. simpl.
    unfold clock_read. reflexivity. }
  assert (Cp : dir_path wC = dir_path w).
  { unfold wC, clock_read. simpl.
    destruct (later (arrive wB)); simpl; congruence. }
  assert (Cr : remove_err wC = remove_err w).
  { unfold wC, clock_read. simpl.
    destruct (later (arrive wB)); simpl; congruence. }
  assert (Cs : dir_state wC = Listing files).
  { unfold wC, clock_read. simpl.
    destruct (later (arrive wB)); simpl; congruence. }
  assert (Cc : now wC = hd (now w) (later w) /\ later wC = tl (later w)).
  { unfold wC, clock_read. simpl. rewrite Hlater.
    destruct (later w); simpl; [|split; reflexivity].
    split; [exact Hnow|exact Hlater]. }
  assert (Cl : calls wC = calls w ++ [Ev (os_Stat dir) None; evB; evC]).
  { unfold wC, clock_read. simpl.
    replace (calls (match later (arrive wB) with
                    | [] => arrive wB
                    | t :: l => set_clock t l (arrive wB)
                    end)) with (calls (arrive wB))
      by (destruct (later (arrive wB)); reflexivity).
    rewrite arrive_calls, Bl, Al, <- !app_assoc. reflexivity. }
  (* the removals *)
  destruct (removeAll_listing srv (collect srv (now w) files) wC files
              (eq_trans Hpath (eq_sym Cp)) Cs)
    as (wD & evs & HD & Dl & Ds & Dd & Dc).
  rewrite collect_filter, Cp, Cr in Ds. fold (stale srv (now w)) in Ds.
  destruct (disk_inv _ _ Dd) as [Dp Dr]. destruct (clock_inv _ _ Dc) as [Dn Dla].
  (* the record *)
  set (evE := Ev (log_Debug "Found old rendered image to delete"
                    [("deleted", VInt (len (collect srv (now w) files)));
                     ("kept", VInt (len files))]) tt).
  destruct (after_fields evE wD) as (Ed & Ec & Es & El).
  destruct (disk_inv _ _ Ed) as [Ep Er]. destruct (clock_inv _ _ Ec) as [En Ela].
  exists (after evE wD), ([Ev (os_Stat dir) None; evB; evC] ++ evs).
  split; [|repeat split].
  - unfold cleanUpTmpFiles. fold dir.
    eapply runs_bind; [exact HA|]. cbn [os_IsNotExist].
    eapply runs_bind; [exact HB|]. cbv beta iota.
    eapply runs_bind; [exact HC|]. cbv beta zeta.
    eapply runs_bind; [exact HD|].
    apply runs_trigger. reflexivity.
  - rewrite El, Dl, Cl, <- !app_assoc. unfold found_log, evE.
    rewrite collect_filter. reflexivity.
  - rewrite Es. exact Ds.
  - unfold disk. congruence.
  - destruct Cc. congruence.
  - destruct Cc. congruence.
Qed.

(** *** When the names of the directory are distinct *)

Lemma append_inj (p a b : string) : (p ++ a = p ++ b)%string -> a = b.
Proof.
  induction p as [|c p IH]; simpl; intros H; [exact H|].
  injection H as H. exact (IH H).
Qed.

Lemma path_Join_inj (dir a b : string) :
  path_Join dir a = path_Join dir b -> a = b.
Proof.
  unfold path_Join.
  destruct (String.eqb dir "" || String.eqb dir "."); [auto|].
  destruct (String.eqb dir "/"); intros H.
  - apply (append_inj "/") in H. exact H.
  - apply append_inj in H. apply (append_inj "/") in H. exact H.
Qed.

Lemma name_unique (files : list FileInfo) (a b : FileInfo) :
  NoDup (map Name files) -> In a files -> In b files ->
  Name a = Name b -> a = b.
Proof.
  induction files as [|x files IH]; simpl; intros Hnd Ha Hb Hn; [contradiction|].
  inversion Hnd as [|? ? Hx Hnd']; subst.
  destruct Ha as [<-|Ha], Hb as [<-|Hb].
  - reflexivity.
  - exfalso. apply Hx. rewrite Hn. apply in_map. exact Hb.
  - exfalso. apply Hx. rewrite <- Hn. apply in_map. exact Ha.
  - apply IH; assumption.
Qed.


Lemma hits_unique (w : World) (st : FileInfo -> bool) (files : list FileInfo)
    (f : FileInfo) :
  NoDup (map Name files) -> In f files ->
  existsb (fun d => hits (dir_path w) (remove_err w) d f) (filter st files)
  = st f && removable w f.
Proof.
  intros Hnd Hf. apply eq_true_iff_eq. rewrite existsb_exists, andb_true_iff.
  unfold hits, removable. split.
  - intros (d & Hd & Hh). apply filter_In in Hd. destruct Hd as [Hd Hst].
    destruct (remove_err w (path_Join (dir_path w) (Name d))) eqn:Hr;
      [discriminate|].
    apply String.eqb_eq in Hh.
    assert (f = d)
      by (apply (name_unique files); auto; apply (path_Join_inj _ _ _ Hh)).
    subst d. rewrite Hr. split; [exact Hst|reflexivity].
  - intros [Hst Hr]. exists f. split; [apply filter_In; split; assumption|].
    destruct (remove_err w (path_Join (dir_path w) (Name f)));
      [discriminate|apply String.eqb_refl].
Qed.

Lemma cleanUpTmpFiles_distinct (srv : CleanUpService) (w : World)
    (files : list FileInfo) :
  ImagesDir (Cfg srv) = dir_path w ->
  dir_state w = Listing files ->
  NoDup (map Name files) ->
  exists w' evs,
    runs (cleanUpTmpFiles srv) w tt w' /\
    calls w' = calls w ++ evs ++ [found_log srv (now w) files] /\
    dir_state w' = Listing (left_by srv w files) /\
    disk w' = disk w /\
    now w' = hd (now w) (later w) /\ later w' = tl (later w).
Proof.
  intros Hpath Hdir Hnd.
  destruct (cleanUpTmpFiles_listing srv w files Hpath Hdir)
    as (w' & evs & Hrun & Hl & Hs & Hd & Hc).
  exists w', evs. repeat split; try assumption; try apply Hc.
  rewrite Hs. f_equal. apply filter_ext_in. intros f Hf.
  rewrite (hits_unique w _ files f Hnd Hf). reflexivity.
Qed.

(** ** The expiration policy and the temp-file pass *)

Lemma stale_positive (srv : CleanUpService) (now : Time) (f : FileInfo) :
  0 < TempDataLifetime (Cfg srv) ->
  stale srv now f = true <-> TempDataLifetime (Cfg srv) < Sub now (ModTime f).
Proof.
  intros HL. unfold stale, shouldCleanupTempFile, Before, Add, Sub.
  destruct (Z.eqb_spec (TempDataLifetime (Cfg srv)) 0) as [E|_]; [lia|].
  rewrite Z.ltb_lt. lia.
Qed.

(** C1, as the code has it: in a directory of distinct names, a file is
    deleted by the temp-file pass iff its age [now - modTime] is greater than
    the lifetime L and [os.Remove] does not refuse it, for every L > 0 (at an
    age of exactly L it stays, and so does a file the system refuses to
    remove); for L = 0 it is never deleted. *)
Theorem temp_file_deleted_iff_age_exceeds_lifetime
    (srv : CleanUpService) (w : World) (files : list FileInfo) (f : FileInfo) :
  ImagesDir (Cfg srv) = dir_path w ->
  dir_state w = Listing files ->
  NoDup (map Name files) ->
  In f files ->
  exists w' files',
    runs (cleanUpTmpFiles srv) w tt w' /\
    dir_state w' = Listing files' /\
    (0 < TempDataLifetime (Cfg srv) ->
     (~ In f files' <->
      TempDataLifetime (Cfg srv) < Sub (now w) (ModTime f) /\
      remove_err w (path_Join (dir_path w) (Name f)) = None)) /\
    (TempDataLifetime (Cfg srv) = 0 -> In f files').
Proof.
  intros Hpath Hdir Hnd Hin.
  destruct (cleanUpTmpFiles_distinct srv w files Hpath Hdir Hnd)
    as (w' & evs & Hrun & _ & Hs & _).
  exists w', (left_by srv w files). split; [exact Hrun|]. split; [exact Hs|].
  assert (Hleft : In f (left_by srv w files)
                  <-> stale srv (now w) f && removable w f = false).
  { unfold left_by. rewrite filter_In, negb_true_iff. tauto. }
  assert (Hrm : removable w f = true
                <-> remove_err w (path_Join (dir_path w) (Name f)) = None).
  { unfold removable.
    destruct (remove_err w (path_Join (dir_path w) (Name f)));
      split; congruence. }
  split.
  - intros HL. rewrite Hleft, <- Hrm, <- (stale_positive srv (now w) f HL).
    rewrite not_false_iff_true. apply andb_true_iff.
  - intros HL. apply Hleft. unfold stale, shouldCleanupTempFile.
    rewrite HL. reflexivity.
Qed.

Lemma distinct_AB (t : Time) : NoDup (map Name [fileA t; fileB t]).
Proof.
  simpl. constructor; [|constructor; [|constructor]]; simpl.
  - intros [H|[]]. discriminate H.
  - intros [].
Defined.

(** The theorem at work: lifetime one hour, file A two hours old. *)
Lemma temp_file_deleted_iff_age_exceeds_lifetime_witness :
  exists w' files',
    runs (cleanUpTmpFiles (service Hour)) (world [fileA T0; fileB T0] T0) tt w' /\
    dir_state w' = Listing files' /\
    (0 < Hour ->
     (~ In (fileA T0) files' <->
      Hour < Sub T0 (ModTime (fileA T0)) /\
      remove_err (world [fileA T0; fileB T0] T0)
        (path_Join "data/png" (Name (fileA T0))) = None)) /\
    (Hour = 0 -> In (fileA T0) files').
Proof.
  apply (temp_file_deleted_iff_age_exceeds_lifetime (service Hour)
           (world [fileA T0; fileB T0] T0) [fileA T0; fileB T0] (fileA T0)).
  - reflexivity.
  - reflexivity.
  - apply distinct_AB.
  - left. reflexivity.
Defined.

(** C1, as the spec words it, fails where the age equals the lifetime: the
    file is an hour old, the lifetime is an hour, and the pass keeps it. *)
Lemma temp_file_kept_at_exact_lifetime :
  exists w',
    runs (cleanUpTmpFiles (service Hour)) (world [fileEdge] T0) tt w' /\
    dir_state w' = Listing [fileEdge] /\
    0 < TempDataLifetime (Cfg (service Hour)) /\
    Sub (now (world [fileEdge] T0)) (ModTime fileEdge)
    >= TempDataLifetime (Cfg (service Hour)).
Proof.
  eexists. split; [exists 20%nat; vm_compute; reflexivity|].
  split; [reflexivity|]. split; vm_compute; congruence.
Qed.

(** C2, as the code has it: [shouldCleanupTempFile] answers false when the
    lifetime is zero and otherwise true iff [modTime + lifetime < now]; so the
    files the pass collects, and the files it takes from a directory of
    distinct names, all have a lifetime other than zero (it may be negative)
    and an age of at least the lifetime. *)
Theorem shouldCleanupTempFile_decides (srv : CleanUpService) :
  (forall filemtime now,
      TempDataLifetime (Cfg srv) = 0 ->
      shouldCleanupTempFile srv filemtime now = false) /\
  (forall filemtime now,
      TempDataLifetime (Cfg srv) <> 0 ->
      (shouldCleanupTempFile srv filemtime now = true
       <-> Add filemtime (TempDataLifetime (Cfg srv)) < now)) /\
  (forall now files f,
      In f (collect srv now files) ->
      In f files /\ TempDataLifetime (Cfg srv) <> 0 /\
      Sub now (ModTime f) >= TempDataLifetime (Cfg srv)) /\
  (forall w files,
      ImagesDir (Cfg srv) = dir_path w ->
      dir_state w = Listing files ->
      NoDup (map Name files) ->
      exists w' files',
        runs (cleanUpTmpFiles srv) w tt w' /\
        dir_state w' = Listing files' /\
        forall f, In f files -> ~ In f files' ->
                  TempDataLifetime (Cfg srv) <> 0 /\
                  Sub (now w) (ModTime f) >= TempDataLifetime (Cfg srv)).
Proof.
  assert (Hshould : forall m n,
             shouldCleanupTempFile srv m n = true ->
             TempDataLifetime (Cfg srv) <> 0 /\
             Sub n m >= TempDataLifetime (Cfg srv)).
  { intros m n. unfold shouldCleanupTempFile, Before, Add, Sub.
    destruct (Z.eqb_spec (TempDataLifetime (Cfg srv)) 0) as [E|N];
      [discriminate|].
    rewrite Z.ltb_lt. lia. }
  split; [|split; [|split]].
  - intros m n HL. unfold shouldCleanupTempFile. rewrite HL. reflexivity.
  - intros m n HL. unfold shouldCleanupTempFile, Before.
    destruct (Z.eqb_spec (TempDataLifetime (Cfg srv)) 0) as [E|_];
      [contradiction|].
    apply Z.ltb_lt.
  - intros n files f Hin. rewrite collect_filter in Hin.
    apply filter_In in Hin. destruct Hin as [Hin Hs].
    split; [exact Hin|]. apply (Hshould _ _ Hs).
  - intros w files Hpath Hdir Hnd.
    destruct (cleanUpTmpFiles_distinct srv w files Hpath Hdir Hnd)
      as (w' & evs & Hrun & _ & Hs & _).
    exists w', (left_by srv w files). split; [exact Hrun|]. split; [exact Hs|].
    intros f Hin Hout. apply (Hshould (ModTime f) (now w)).
    destruct (shouldCleanupTempFile srv (ModTime f) (now w)) eqn:Hst;
      [reflexivity|].
    exfalso. apply Hout. unfold left_by. apply filter_In.
    split; [exact Hin|]. unfold stale. rewrite Hst. reflexivity.
Qed.

(** The theorem at work: a lifetime of zero, a lifetime of one hour and a
    file two hours old. *)
Lemma shouldCleanupTempFile_decides_witness :
  shouldCleanupTempFile (service 0) (ModTime (fileA T0)) T0 = false /\
  (shouldCleanupTempFile (service Hour) (ModTime (fileA T0)) T0 = true
   <-> Add (ModTime (fileA T0)) Hour < T0) /\
  (In (fileA T0) [fileA T0; fileB T0] /\
   Hour <> 0 /\ Sub T0 (ModTime (fileA T0)) >= Hour).
Proof.
  destruct (shouldCleanupTempFile_decides (service 0)) as (Hzero & _).
  destruct (shouldCleanupTempFile_decides (service Hour)) as (_ & Hiff & Hcol & _).
  split; [apply Hzero; reflexivity|].
  split; [apply Hiff; discriminate|].
  apply (Hcol T0 [fileA T0; fileB T0] (fileA T0)).
  vm_compute. left. reflexivity.
Defined.

(** C2, as the spec words it, fails for a negative lifetime: it is not
    positive, yet the policy answers true for a file written this instant,
    and the pass deletes the file. *)
Lemma negative_lifetime_deletes_fresh_file :
  TempDataLifetime (Cfg (service (- Hour))) <= 0 /\
  shouldCleanupTempFile (service (- Hour)) (ModTime fileNew) T0 = true /\
  exists w',
    runs (cleanUpTmpFiles (service (- Hour))) (world [fileNew] T0) tt w' /\
    dir_state w' = Listing [].
Proof.
  split; [vm_compute; congruence|]. split; [reflexivity|].
  eexists. split; [exists 20%nat; vm_compute; reflexivity|reflexivity].
Qed.

Lemma stale_A (t : Time) : stale (service Hour) t (fileA t) = true.
Proof.
  unfold stale, shouldCleanupTempFile, Before, Add. simpl.
  apply Z.ltb_lt. unfold Hour, Minute, Second. lia.
Qed.

Lemma stale_B (t : Time) : stale (service Hour) t (fileB t) = false.
Proof.
  unfold stale, shouldCleanupTempFile, Before, Add. simpl.
  apply Z.ltb_ge. unfold Hour, Minute, Second. lia.
Qed.

(** C6, evaluated: lifetime one hour, now T, A modified at T-2h and B at
    T-30m.  The pass deletes A and keeps B, and its record says deleted 1,
    but under "kept" it gives the number of all files read, 2. *)
Theorem found_log_counts_all_files_as_kept (t : Time) :
  exists w' evs,
    runs (cleanUpTmpFiles (service Hour)) (world [fileA t; fileB t] t) tt w' /\
    dir_state w' = Listing [fileB t] /\
    calls w'
    = evs ++ [Ev (log_Debug "Found old rendered image to delete"
                    [("deleted", VInt 1); ("kept", VInt 2)]) tt].
Proof.
  destruct (cleanUpTmpFiles_distinct (service Hour) (world [fileA t; fileB t] t)
              [fileA t; fileB t] eq_refl eq_refl (distinct_AB t))
    as (w' & evs & Hrun & Hl & Hs & _).
  exists w', evs. split; [exact Hrun|]. split.
  - rewrite Hs. unfold left_by. simpl.
    rewrite stale_A, stale_B. reflexivity.
  - rewrite Hl. unfold found_log. simpl.
    rewrite stale_A, stale_B. reflexivity.
Qed.





(** The second proviso is needed as well: the first pass is refused the
    removal of a file two hours old; by the second pass, at the same instant
    and with no file added, the system lets go of it, and the second pass
    deletes it. *)
Example second_pass_deletes_file_no_longer_refused :
  exists w1 w2,
    runs (cleanUpTmpFiles (service Hour))
      (set_remove_err (fun _ => Some ErrPermission) (world [fileA T0] T0))
      tt w1 /\
    dir_state w1 = Listing [fileA T0] /\
    now w1 = T0 /\
    runs (cleanUpTmpFiles (service Hour)) (set_remove_err (fun _ => None) w1)
      tt w2 /\
    dir_state w2 = Listing [].
Proof.
  eexists. eexists.
  split; [exists 20%nat; vm_compute; reflexivity|].
  split; [reflexivity|]. split; [reflexivity|].
  split; [exists 20%nat; vm_compute; reflexivity|reflexivity].
Qed.

(** ** The deletion of expired invites *)

(** What the session reads in the statement of the service: a delete on
    table temp_user of the rows whose [created_at] is at most the bound. *)
Lemma parse_deleteInvitesSql :
  parse_delete deleteInvitesSql = Some (mkDelete "temp_user" "created_at" CmpLe).
Proof. reflexivity. Qed.

Lemma clock_read_tables (w : World) :
  temp_user (snd (clock_read w)) = temp_user w /\
  db_faults (snd (clock_read w)) = db_faults w /\
  calls (snd (clock_read w)) = calls w.
Proof. unfold clock_read. simpl. destruct (later w); auto. Qed.

(** Up to the statement: the clock is read, the start is put on record, and
    the session is handed the statement with the cutoff. *)
Lemma invites_statement (srv : CleanUpService) (w : World) :
  exists wA wB,
    runs (ITree.trigger time_Now) w (now w) wA /\
    runs (ITree.trigger
            (log_Debug "starting cleanup of expired user invites"
               [("createdBefore",
                 VTime (Add (now w)
                          (neg64 (mul64 (mul64 (UserInviteMaxLifetimeDays (Cfg srv)) 24)
                                    Hour))))])) wA tt wB /\
    temp_user (arrive wB) = temp_user w /\
    db_faults (arrive wB) = db_faults w /\
    calls (arrive wB)
    = calls w ++ [Ev time_Now (now w);
                  Ev (log_Debug "starting cleanup of expired user invites"
                        [("createdBefore",
                          VTime (Add (now w)
                                   (neg64 (mul64 (mul64 (UserInviteMaxLifetimeDays
                                                           (Cfg srv)) 24) Hour))))]) tt].
Proof.
  destruct (arrive_is_set_ctx w) as (e0 & c0 & H0).
  set (wA := record (Ev time_Now (now w)) (snd (clock_read (arrive w)))).
  assert (HA : runs (ITree.trigger time_Now) w (now w) wA).
  { assert (Hn : now (arrive w) = now w) by (rewrite H0; reflexivity).
    unfold wA. rewrite <- Hn.
    apply runs_trigger. simpl. unfold clock_read. reflexivity. }
  destruct (clock_read_tables (arrive w)) as (At & Af & Ac).
  replace (temp_user (arrive w)) with (temp_user w) in At
    by (rewrite H0; reflexivity).
  replace (db_faults (arrive w)) with (db_faults w) in Af
    by (rewrite H0; reflexivity).
  rewrite arrive_calls in Ac.
  set (evB := Ev (log_Debug "starting cleanup of expired user invites"
                    [("createdBefore",
                      VTime (Add (now w)
                               (neg64 (mul64 (mul64 (UserInviteMaxLifetimeDays
                                                       (Cfg srv)) 24) Hour))))]) tt).
  exists wA, (after evB wA). split; [exact HA|]. split; [|repeat split].
  - apply runs_trigger. reflexivity.
  - destruct (arrive_is_set_ctx (after evB wA)) as (e1 & c1 & ->).
    destruct (arrive_is_set_ctx wA) as (e2 & c2 & H2).
    unfold after. rewrite H2. exact At.
  - destruct (arrive_is_set_ctx (after evB wA)) as (e1 & c1 & ->).
    destruct (arrive_is_set_ctx wA) as (e2 & c2 & H2).
    unfold after. rewrite H2. exact Af.
  - rewrite arrive_calls. unfold after.
    change (calls (arrive wA) ++ [evB] = calls w ++ [Ev time_Now (now w); evB]).
    rewrite arrive_calls.
    change (calls wA) with (calls (snd (clock_read (arrive w))) ++ [Ev time_Now (now w)]).
    rewrite Ac, <- app_assoc. reflexivity.
Qed.

(** The statement runs and the count is told. *)
Lemma deleteExpiredUserInvites_deletes (srv : CleanUpService) (ctx : Context)
    (w : World) :
  hd NoFault (db_faults w) = NoFault ->
  exists w',
    runs (deleteExpiredUserInvites srv ctx) w
      (len (filter (expired srv (now w)) (temp_user w)), None) w' /\
    temp_user w' = filter (fun u => negb (expired srv (now w) u)) (temp_user w) /\
    calls w'
    = calls w
      ++ invite_calls srv (now w)
           (mkResult (len (filter (expired srv (now w)) (temp_user w))) None, None)
      ++ [Ev (log_Debug "cleanup of expired user invites done"
                [("count", VInt (len (filter (expired srv (now w)) (temp_user w))))])
             tt].
Proof.
  intros Hfault.
  destruct (invites_statement srv w) as (wA & wB & HA & HB & Bt & Bf & Bc).
  set (n := len (filter (expired srv (now w)) (temp_user w))).
  assert (Hexec : exists w1,
             db_exec (arrive wB) deleteInvitesSql [inviteCutoff srv (now w)]
             = ((mkResult n None, None), w1) /\
             temp_user w1
             = filter (fun u => negb (expired srv (now w) u)) (temp_user w) /\
             calls w1 = calls (arrive wB)).
  { unfold db_exec, next_fault. rewrite Bf, parse_deleteInvitesSql.
    destruct (db_faults w) as [|fault l]; simpl in Hfault; [|subst fault];
      simpl; rewrite Bt;
      eexists; (split; [reflexivity|split; reflexivity]). }
  destruct Hexec as (w1 & Hexec & Ht1 & Hc1).
  set (evC := Ev (db_Exec deleteInvitesSql [inviteCutoff srv (now w)])
                (mkResult n None, None)).
  set (evD := Ev (log_Debug "cleanup of expired user invites done"
                    [("count", VInt n)]) tt).
  exists (after evD (record evC w1)). split; [|split].
  - unfold deleteExpiredUserInvites, WithDbSession.
    eapply runs_bind; [exact HA|]. cbv beta zeta.
    eapply runs_bind; [exact HB|]. cbv beta.
    eapply runs_bind;
      [apply runs_trigger; simpl; unfold inviteCutoff in Hexec; rewrite Hexec;
       reflexivity|].
    cbn [RowsAffected rows rowsErr]. fold n.
    eapply runs_bind; [apply runs_trigger; reflexivity|]. apply runs_ret.
  - destruct (arrive_is_set_ctx (record evC w1)) as (e1 & c1 & H1).
    unfold after. rewrite H1. exact Ht1.
  - unfold after.
    change (calls (arrive (record evC w1)) ++ [evD] = calls w ++ invite_calls srv (now w) (mkResult n None, None) ++ [evD]).
    rewrite arrive_calls.
    change (calls (record evC w1)) with (calls w1 ++ [evC]).
    rewrite Hc1, Bc. unfold invite_calls. rewrite <- !app_assoc. reflexivity.
Qed.

(** The statement runs and the count is not told: [RowsAffected()] answers
    [(n, e)].  The failure is put on record and swallowed: the callback
    returns nil, and the deletion returns the count that came with [e]. *)
Lemma deleteExpiredUserInvites_count_fails (srv : CleanUpService)
    (ctx : Context) (w : World) (n : Z) (e : error) (more : list DbFault) :
  db_faults w = CountFails n e :: more ->
  exists w',
    runs (deleteExpiredUserInvites srv ctx) w (n, None) w' /\
    temp_user w' = filter (fun u => negb (expired srv (now w) u)) (temp_user w) /\
    calls w'
    = calls w
      ++ invite_calls srv (now w) (mkResult n (Some e), None)
      ++ [Ev (log_Error "failed to cleanup expired user invites"
                [("error", VErr e)]) tt].
Proof.
  intros Hfault.
  destruct (invites_statement srv w) as (wA & wB & HA & HB & Bt & Bf & Bc).
  assert (Hexec : exists w1,
             db_exec (arrive wB) deleteInvitesSql [inviteCutoff srv (now w)]
             = ((mkResult n (Some e), None), w1) /\
             temp_user w1
             = filter (fun u => negb (expired srv (now w) u)) (temp_user w) /\
             calls w1 = calls (arrive wB)).
  { unfold db_exec, next_fault. rewrite Bf, Hfault, parse_deleteInvitesSql.
    simpl; rewrite Bt.
    eexists; (split; [reflexivity|split; reflexivity]). }
  destruct Hexec as (w1 & Hexec & Ht1 & Hc1).
  set (evC := Ev (db_Exec deleteInvitesSql [inviteCutoff srv (now w)])
                (mkResult n (Some e), None)).
  set (evD := Ev (log_Error "failed to cleanup expired user invites"
                    [("error", VErr e)]) tt).
  exists (after evD (record evC w1)). split; [|split].
  - unfold deleteExpiredUserInvites, WithDbSession.
    eapply runs_bind; [exact HA|]. cbv beta zeta.
    eapply runs_bind; [exact HB|]. cbv beta.
    eapply runs_bind;
      [apply runs_trigger; simpl; unfold inviteCutoff in Hexec; rewrite Hexec;
       reflexivity|].
    cbn [RowsAffected rows rowsErr].
    eapply runs_bind; [apply runs_trigger; reflexivity|]. apply runs_ret.
  - destruct (arrive_is_set_ctx (record evC w1)) as (e1 & c1 & H1).
    unfold after. rewrite H1. exact Ht1.
  - unfold after.
    change (calls (arrive (record evC w1)) ++ [evD] = calls w ++ invite_calls srv (now w) (mkResult n (Some e), None) ++ [evD]).
    rewrite arrive_calls.
    change (calls (record evC w1)) with (calls w1 ++ [evC]).
    rewrite Hc1, Bc. unfold invite_calls. rewrite <- !app_assoc. reflexivity.
Qed.

Lemma Unix_shift (t : Time) (secs : Z) :
  Unix (Add t (secs * Second)) = Unix t + secs.
Proof. unfold Unix, Add. apply Z.div_add. discriminate. Qed.

Lemma three_days (srv : CleanUpService) :
  UserInviteMaxLifetimeDays (Cfg srv) = 3 ->
  neg64 (mul64 (mul64 (UserInviteMaxLifetimeDays (Cfg srv)) 24) Hour) = - (3 * Day).
Proof. intros H. rewrite H. reflexivity. Qed.

(** C8: with invites living three days, the deletion hands the session the
    statement [DELETE from temp_user WHERE created_at <= ?] with the cutoff
    [now - 3 days]; the session, which reads the statement, deletes an invite
    created at [now - 4 days] and keeps one created at [now - 2 days]. *)
Theorem invites_deleted_by_three_day_cutoff
    (srv : CleanUpService) (ctx : Context) (w : World) (old young : TempUser) :
  UserInviteMaxLifetimeDays (Cfg srv) = 3 ->
  hd NoFault (db_faults w) = NoFault ->
  In old (temp_user w) -> created_at old = Unix (Add (now w) (- (4 * Day))) ->
  In young (temp_user w) -> created_at young = Unix (Add (now w) (- (2 * Day))) ->
  exists w' n,
    runs (deleteExpiredUserInvites srv ctx) w (n, None) w' /\
    calls w'
    = calls w
      ++ [Ev time_Now (now w);
          Ev (log_Debug "starting cleanup of expired user invites"
                [("createdBefore", VTime (Add (now w) (- (3 * Day))))]) tt;
          Ev (db_Exec "DELETE from temp_user WHERE created_at <= ?"
                [Unix (Add (now w) (- (3 * Day)))])
             (mkResult n None, None);
          Ev (log_Debug "cleanup of expired user invites done"
                [("count", VInt n)]) tt] /\
    ~ In old (temp_user w') /\
    In young (temp_user w').
Proof.
  intros Hdays Hfault Hold Hco Hyoung Hcy.
  destruct (deleteExpiredUserInvites_deletes srv ctx w Hfault)
    as (w' & Hrun & Ht & Hc).
  exists w', (len (filter (expired srv (now w)) (temp_user w))).
  assert (Hcut : inviteCutoff srv (now w) = Unix (now w) - 259200).
  { unfold inviteCutoff. rewrite (three_days srv Hdays).
    change (- (3 * Day)) with (-259200 * Second). rewrite Unix_shift. lia. }
  split; [exact Hrun|]. split; [|split].
  - rewrite Hc. unfold invite_calls, inviteCutoff.
    rewrite (three_days srv Hdays). reflexivity.
  - rewrite Ht, filter_In. intros [_ Hkept].
    apply negb_true_iff in Hkept. unfold expired in Hkept.
    apply Z.leb_gt in Hkept. rewrite Hcut, Hco in Hkept.
    change (- (4 * Day)) with (-345600 * Second) in Hkept.
    rewrite Unix_shift in Hkept. lia.
  - rewrite Ht, filter_In. split; [exact Hyoung|].
    apply negb_true_iff. unfold expired. apply Z.leb_gt.
    rewrite Hcut, Hcy. change (- (2 * Day)) with (-172800 * Second).
    rewrite Unix_shift. lia.
Qed.

(** The theorem at work on the two invites of the scenario. *)
Lemma invites_deleted_by_three_day_cutoff_witness :
  exists w' n,
    runs (deleteExpiredUserInvites (service Hour) TheContext) world_invites
      (n, None) w' /\
    calls w'
    = calls world_invites
      ++ [Ev time_Now (now world_invites);
          Ev (log_Debug "starting cleanup of expired user invites"
                [("createdBefore", VTime (Add (now world_invites) (- (3 * Day))))]) tt;
          Ev (db_Exec "DELETE from temp_user WHERE created_at <= ?"
                [Unix (Add (now world_invites) (- (3 * Day)))])
             (mkResult n None, None);
          Ev (log_Debug "cleanup of expired user invites done"
                [("count", VInt n)]) tt] /\
    ~ In inviteOld (temp_user w') /\
    In inviteYoung (temp_user w').
Proof.
  apply (invites_deleted_by_three_day_cutoff (service Hour) TheContext
           world_invites inviteOld inviteYoung).
  - reflexivity.
  - reflexivity.
  - left. reflexivity.
  - reflexivity.
  - right. left. reflexivity.
  - reflexivity.
Defined.

(** C10: when the statement succeeds and [RowsAffected()] fails, answering
    Go's zero count beside its error, the deletion puts the failure on record
    and returns a count of 0 with a nil error; the rows are deleted all the
    same. *)
Theorem count_failure_returns_success
    (srv : CleanUpService) (ctx : Context) (w : World) (e : error)
    (more : list DbFault) :
  db_faults w = CountFails 0 e :: more ->
  exists w',
    runs (deleteExpiredUserInvites srv ctx) w (0, None) w' /\
    calls w'
    = calls w
      ++ invite_calls srv (now w) (mkResult 0 (Some e), None)
      ++ [Ev (log_Error "failed to cleanup expired user invites"
                [("error", VErr e)]) tt] /\
    temp_user w' = filter (fun u => negb (expired srv (now w) u)) (temp_user w).
Proof.
  intros Hfault.
  destruct (deleteExpiredUserInvites_count_fails srv ctx w 0 e more Hfault)
    as (w' & Hrun & Ht & Hc).
  exists w'. split; [exact Hrun|]. split; [exact Hc|exact Ht].
Qed.

(** The theorem at work. *)
Lemma count_failure_returns_success_witness :
  exists w',
    runs (deleteExpiredUserInvites (service Hour) TheContext) world_count_fails
      (0, None) w' /\
    calls w'
    = calls world_count_fails
      ++ invite_calls (service Hour) (now world_count_fails)
           (mkResult 0 (Some (ErrOther "no RowsAffected available")), None)
      ++ [Ev (log_Error "failed to cleanup expired user invites"
                [("error", VErr (ErrOther "no RowsAffected available"))]) tt] /\
    temp_user w'
    = filter (fun u => negb (expired (service Hour) (now world_count_fails) u))
        (temp_user world_count_fails).
Proof.
  apply (count_failure_returns_success (service Hour) TheContext
           world_count_fails (ErrOther "no RowsAffected available") []).
  reflexivity.
Defined.

(** ** The steps of a tick, one after the other *)

(** The four steps before the lock run in sequence, each from the world the
    one before left; none of them touches the lock or the login attempts,
    and the tick goes on with the fifth step from where they end. *)
Lemma steps_before_lock (srv : CleanUpService) (ctx : Context) (w : World) :
  exists w1 w2 w3 r w4,
    runs (cleanUpTmpFiles srv) w tt w1 /\
    runs (deleteExpiredSnapshots srv) w1 tt w2 /\
    runs (deleteExpiredDashboardVersions srv) w2 tt w3 /\
    runs (deleteExpiredUserInvites srv ctx) w3 r w4 /\
    lock_answers w4 = lock_answers w /\
    login_attempt w4 = login_attempt w /\
    forall w5, runs (lockedLoginAttempts srv ctx) w4 tt w5 ->
               runs (tick srv ctx) w tt w5.
Proof.
  destruct (safe_sound _ (cleanUpTmpFiles srv) w (cleanUpTmpFiles_safe srv))
    as ([] & w1 & evs1 & H1 & F1 & _ & L1 & D1).
  destruct (safe_sound _ (deleteExpiredSnapshots srv) w1
              (deleteExpiredSnapshots_safe srv))
    as ([] & w2 & evs2 & H2 & F2 & _ & L2 & D2).
  destruct (safe_sound _ (deleteExpiredDashboardVersions srv) w2
              (deleteExpiredDashboardVersions_safe srv))
    as ([] & w3 & evs3 & H3 & F3 & _ & L3 & D3).
  destruct (safe_sound _ (deleteExpiredUserInvites srv ctx) w3
              (deleteExpiredUserInvites_safe srv ctx))
    as (r & w4 & evs4 & H4 & F4 & _ & L4 & D4).
  exists w1, w2, w3, r, w4. repeat split; try assumption.
  - rewrite (fr_lock _ _ _ F4 L4), (fr_lock _ _ _ F3 L3), (fr_lock _ _ _ F2 L2).
    exact (fr_lock _ _ _ F1 L1).
  - rewrite (fr_login _ _ _ F4 D4), (fr_login _ _ _ F3 D3),
      (fr_login _ _ _ F2 D2).
    exact (fr_login _ _ _ F1 D1).
  - intros w5 H5. unfold tick.
    eapply runs_bind; [exact H1|]. eapply runs_bind; [exact H2|].
    eapply runs_bind; [exact H3|]. eapply runs_bind; [exact H4|]. exact H5.
Qed.

(** The fifth step when the lock service refuses the lease *)
Lemma lockedLoginAttempts_denied (srv : CleanUpService) (ctx : Context)
    (w : World) (e : error) (more : list (option error)) :
  lock_answers w = Some e :: more ->
  exists w',
    runs (lockedLoginAttempts srv ctx) w tt w' /\
    calls w'
    = calls w
      ++ [Ev (lock_Acquire "delete old login attempts" (Minute * 10)) (Some e);
          Ev (log_Error "failed to lock and execute cleanup of old login attempts"
                [("error", VErr e)]) tt] /\
    login_attempt w' = login_attempt w /\
    lock_answers w' = more.
Proof.
  intros Hlock.
  destruct (arrive_is_set_ctx w) as (e0 & c0 & H0).
  set (ev1 := Ev (lock_Acquire "delete old login attempts" (Minute * 10)) (Some e)).
  set (ev2 := Ev (log_Error "failed to lock and execute cleanup of old login attempts"
                    [("error", VErr e)]) tt).
  set (w1 := record ev1 (set_lock_answers more (arrive w))).
  assert (Hacq : runs (ITree.trigger
                         (lock_Acquire "delete old login attempts" (Minute * 10)))
                   w (Some e) w1).
  { apply runs_trigger. simpl. unfold lock_acquire.
    replace (lock_answers (arrive w)) with (lock_answers w)
      by (rewrite H0; reflexivity).
    rewrite Hlock. reflexivity. }
  destruct (arrive_is_set_ctx w1) as (e1 & c1 & H1).
  exists (after ev2 w1). split; [|repeat split].
  - unfold lockedLoginAttempts, LockAndExecute.
    eapply runs_bind.
    + eapply runs_bind; [exact Hacq|]. apply runs_ret.
    + apply runs_trigger. reflexivity.
  - unfold after. change (calls (arrive w1) ++ [ev2] = calls w ++ [ev1; ev2]).
    rewrite arrive_calls. change (calls w1) with (calls (arrive w) ++ [ev1]).
    rewrite arrive_calls, <- app_assoc. reflexivity.
  - unfold after. rewrite H1. unfold w1. rewrite H0. reflexivity.
  - unfold after. rewrite H1. reflexivity.
Qed.

(** The fifth step when the lease is granted and the protection is disabled:
    the body runs and makes no call. *)
Lemma lockedLoginAttempts_disabled (srv : CleanUpService) (ctx : Context)
    (w : World) :
  DisableBruteForceLoginProtection (Cfg srv) = true ->
  hd None (lock_answers w) = None ->
  exists w',
    runs (lockedLoginAttempts srv ctx) w tt w' /\
    calls w'
    = calls w
      ++ [Ev (lock_Acquire "delete old login attempts" (Minute * 10)) None] /\
    login_attempt w' = login_attempt w.
Proof.
  intros Hdis Hlock.
  destruct (arrive_is_set_ctx w) as (e0 & c0 & H0).
  set (ev1 := Ev (lock_Acquire "delete old login attempts" (Minute * 10)) None).
  set (w1 := record ev1 (snd (lock_acquire (arrive w)))).
  assert (Hans : fst (lock_acquire (arrive w)) = None).
  { unfold lock_acquire.
    replace (lock_answers (arrive w)) with (lock_answers w)
      by (rewrite H0; reflexivity).
    destruct (lock_answers w) as [|a l]; [reflexivity|exact Hlock]. }
  assert (Hacq : runs (ITree.trigger
                         (lock_Acquire "delete old login attempts" (Minute * 10)))
                   w None w1).
  { apply runs_trigger. simpl.
    destruct (lock_acquire (arrive w)) as [a w0] eqn:Hl.
    simpl in Hans. subst a. reflexivity. }
  exists w1. split; [|split].
  - unfold lockedLoginAttempts, LockAndExecute.
    eapply runs_bind.
    + eapply runs_bind; [exact Hacq|]. cbv beta iota.
      eapply runs_bind; [|apply runs_ret].
      unfold deleteOldLoginAttempts. rewrite Hdis. apply runs_ret.
    + cbv beta iota. apply runs_ret.
  - unfold w1, lock_acquire.
    destruct (lock_answers (arrive w)); simpl; rewrite arrive_calls; reflexivity.
  - unfold w1, lock_acquire. rewrite H0.
    destruct (lock_answers (set_ctx e0 c0 w)); reflexivity.
Qed.

(** ** The scheduler loop *)

(** C3: started, [Run] makes one temp-file pass, then creates the ticker;
    after that every tick takes the five steps in the order temp files,
    snapshots, dashboard versions, user invites, login attempts, and what a
    tick does is what the five steps do one after the other, each from the
    world the one before left. *)
Theorem Run_cleans_once_then_five_steps_a_tick
    (srv : CleanUpService) (ctx : Context) (n : nat) (w : World)
    (rest : list Chosen) (e : error) :
  chosen w = repeat TickerC n ++ CtxDone :: rest ->
  reason w = Some e ->
  (exists w' evs,
      runs (Run srv ctx) w (Some e) w' /\
      calls w' = calls w ++ evs /\
      schedule evs
      = Op TempFiles :: Ticker (Minute * 10)
        :: List.concat
             (repeat [Woke TickerC; Op TempFiles; Op Snapshots;
                      Op DashboardVersions; Op UserInvites; Op LoginAttempts] n)
        ++ [Woke CtxDone]) /\
  (forall v, exists v1 v2 v3 r v4 v5,
      runs (cleanUpTmpFiles srv) v tt v1 /\
      runs (deleteExpiredSnapshots srv) v1 tt v2 /\
      runs (deleteExpiredDashboardVersions srv) v2 tt v3 /\
      runs (deleteExpiredUserInvites srv ctx) v3 r v4 /\
      runs (lockedLoginAttempts srv ctx) v4 tt v5 /\
      runs (tick srv ctx) v tt v5).
Proof.
  intros Hch Hre. split.
  - destruct (Run_runs srv ctx n w rest e Hch Hre)
      as (w' & evs & Hrun & Hc & Hs & _).
    exists w', evs. split; [exact Hrun|]. split; [exact Hc|exact Hs].
  - intros v.
    destruct (steps_before_lock srv ctx v)
      as (v1 & v2 & v3 & r & v4 & H1 & H2 & H3 & H4 & _ & _ & Htick).
    destruct (safe_sound _ (lockedLoginAttempts srv ctx) v4
                (lockedLoginAttempts_safe srv ctx))
      as ([] & v5 & evs5 & H5 & _).
    exists v1, v2, v3, r, v4, v5. repeat split; try assumption.
    apply Htick. exact H5.
Qed.

(** The theorem at work on a run of two ticks. *)
Lemma Run_cleans_once_then_five_steps_a_tick_witness :
  (exists w' evs,
      runs (Run (service Hour) TheContext) world_run (Some ContextCanceled) w' /\
      calls w' = calls world_run ++ evs /\
      schedule evs
      = Op TempFiles :: Ticker (Minute * 10)
        :: List.concat
             (repeat [Woke TickerC; Op TempFiles; Op Snapshots;
                      Op DashboardVersions; Op UserInvites; Op LoginAttempts] 2)
        ++ [Woke CtxDone]) /\
  (forall v, exists v1 v2 v3 r v4 v5,
      runs (cleanUpTmpFiles (service Hour)) v tt v1 /\
      runs (deleteExpiredSnapshots (service Hour)) v1 tt v2 /\
      runs (deleteExpiredDashboardVersions (service Hour)) v2 tt v3 /\
      runs (deleteExpiredUserInvites (service Hour) TheContext) v3 r v4 /\
      runs (lockedLoginAttempts (service Hour) TheContext) v4 tt v5 /\
      runs (tick (service Hour) TheContext) v tt v5).
Proof.
  apply (Run_cleans_once_then_five_steps_a_tick (service Hour) TheContext 2
           world_run [] ContextCanceled).
  - reflexivity.
  - reflexivity.
Defined.

(** C4: the fifth step asks the lock service for a lease of ten minutes, the
    interval of the ticker, once a tick.  When the service refuses, the tick
    ends with the request and the record of the error, right after the four
    other steps, which run as they run alone: the delete is not called, the
    login attempts are untouched, and the next request is the next tick's.
    Here [LockAndExecute] is as the spec gives it. *)
Theorem lock_denied_skips_login_attempt_delete
    (srv : CleanUpService) (ctx : Context) (w : World) (e : error)
    (more : list (option error)) :
  lock_answers w = Some e :: more ->
  (exists w1 w2 w3 r w4 w',
      runs (cleanUpTmpFiles srv) w tt w1 /\
      runs (deleteExpiredSnapshots srv) w1 tt w2 /\
      runs (deleteExpiredDashboardVersions srv) w2 tt w3 /\
      runs (deleteExpiredUserInvites srv ctx) w3 r w4 /\
      runs (tick srv ctx) w tt w' /\
      calls w'
      = calls w4
        ++ [Ev (lock_Acquire "delete old login attempts" (Minute * 10)) (Some e);
            Ev (log_Error "failed to lock and execute cleanup of old login attempts"
                  [("error", VErr e)]) tt] /\
      login_attempt w' = login_attempt w /\
      lock_answers w' = more) /\
  (forall n v rest c,
      chosen v = repeat TickerC n ++ CtxDone :: rest ->
      reason v = Some c ->
      exists v' evs,
        runs (Run srv ctx) v (Some c) v' /\
        calls v' = calls v ++ evs /\
        filter (fun m => match m with Ticker _ => true | _ => false end)
          (schedule evs) = [Ticker (Minute * 10)] /\
        leases evs = repeat (Minute * 10) n).
Proof.
  intros Hlock. split.
  - destruct (steps_before_lock srv ctx w)
      as (w1 & w2 & w3 & r & w4 & H1 & H2 & H3 & H4 & Hl4 & Hd4 & Htick).
    destruct (lockedLoginAttempts_denied srv ctx w4 e more (eq_trans Hl4 Hlock))
      as (w' & H5 & Hc & Hd & Hl).
    exists w1, w2, w3, r, w4, w'. repeat split; try assumption.
    + apply Htick. exact H5.
    + rewrite Hd. exact Hd4.
  - intros n v rest c Hch Hre.
    destruct (Run_runs srv ctx n v rest c Hch Hre)
      as (v' & evs & Hrun & Hc & Hs & Hl & _).
    exists v', evs. repeat split; try assumption.
    rewrite Hs. unfold Run_schedule, loop_schedule. simpl.
    rewrite filter_app. simpl. rewrite app_nil_r.
    clear. induction n as [|n IH]; [reflexivity|]. simpl. exact IH.
Qed.

(** The theorem at work: the first lease of the run is refused. *)
Lemma lock_denied_skips_login_attempt_delete_witness :
  (exists w1 w2 w3 r w4 w',
      runs (cleanUpTmpFiles (service Hour)) world_run tt w1 /\
      runs (deleteExpiredSnapshots (service Hour)) w1 tt w2 /\
      runs (deleteExpiredDashboardVersions (service Hour)) w2 tt w3 /\
      runs (deleteExpiredUserInvites (service Hour) TheContext) w3 r w4 /\
      runs (tick (service Hour) TheContext) world_run tt w' /\
      calls w'
      = calls w4
        ++ [Ev (lock_Acquire "delete old login attempts" (Minute * 10))
              (Some ErrPermission);
            Ev (log_Error "failed to lock and execute cleanup of old login attempts"
                  [("error", VErr ErrPermission)]) tt] /\
      login_attempt w' = login_attempt world_run /\
      lock_answers w' = []) /\
  (forall n v rest c,
      chosen v = repeat TickerC n ++ CtxDone :: rest ->
      reason v = Some c ->
      exists v' evs,
        runs (Run (service Hour) TheContext) v (Some c) v' /\
        calls v' = calls v ++ evs /\
        filter (fun m => match m with Ticker _ => true | _ => false end)
          (schedule evs) = [Ticker (Minute * 10)] /\
        leases evs = repeat (Minute * 10) n).
Proof.
  apply (lock_denied_skips_login_attempt_delete (service Hour) TheContext
           world_run ErrPermission []).
  reflexivity.
Defined.

Lemma countdown (c : error) (n : nat) :
  forall k : nat,
    Nat.iter n ctx_step (None, Some (k, c))
    = if (k <? n)%nat then (Some c, None) else (None, Some ((k - n)%nat, c)).
Proof.
  induction n as [|n IH]; intros k; simpl.
  - rewrite Nat.sub_0_r. reflexivity.
  - rewrite IH. destruct (Nat.ltb_spec k n) as [Hlt|Hge].
    + destruct (Nat.ltb_spec k (S n)); [reflexivity|lia].
    + destruct (Nat.ltb_spec k (S n)) as [Hlt'|Hge'].
      * replace (k - n)%nat with 0%nat by lia. reflexivity.
      * replace (k - n)%nat with (S (k - S n)) by lia. reflexivity.
Qed.

(** C5: when a select takes the Done case, [Run] returns the error of the
    context, the reason it was cancelled with.  Nothing in a tick looks at
    the context: whatever its state, a tick takes its five steps to the end,
    also when the cancellation arrives after [k] calls of the tick. *)
Theorem Run_returns_reason_of_cancellation
    (srv : CleanUpService) (ctx : Context) (n : nat) (w : World)
    (rest : list Chosen) (e : error) :
  chosen w = repeat TickerC n ++ CtxDone :: rest ->
  reason w = Some e ->
  (exists w' evs,
      runs (Run srv ctx) w (Some e) w' /\
      calls w' = calls w ++ evs /\
      ctx_err w' = Some e /\
      schedule evs
      = Op TempFiles :: Ticker (Minute * 10)
        :: List.concat
             (repeat [Woke TickerC; Op TempFiles; Op Snapshots;
                      Op DashboardVersions; Op UserInvites; Op LoginAttempts] n)
        ++ [Woke CtxDone]) /\
  (forall v k c,
      ctx_err v = None -> cancel_in v = Some (k, c) ->
      exists v' evs,
        runs (tick srv ctx) v tt v' /\
        calls v' = calls v ++ evs /\
        schedule evs
        = [Op TempFiles; Op Snapshots; Op DashboardVersions; Op UserInvites;
           Op LoginAttempts] /\
        ((k < List.length evs)%nat -> ctx_err v' = Some c)).
Proof.
  intros Hch Hre. split.
  - destruct (Run_runs srv ctx n w rest e Hch Hre)
      as (w' & evs & Hrun & Hc & Hs & _ & _ & He).
    exists w', evs. repeat split; assumption.
  - intros v k c Hv Hk.
    destruct (safe_sound _ (tick srv ctx) v (tick_safe srv ctx))
      as ([] & v' & evs & Hrun & Hfr & Hs & _).
    exists v', evs. repeat split; try assumption.
    + exact (fr_calls _ _ _ Hfr).
    + intros Hlt. pose proof (fr_ctx _ _ _ Hfr) as Hctx.
      unfold ctx_of in Hctx. rewrite Hv, Hk, countdown in Hctx.
      apply Nat.ltb_lt in Hlt. rewrite Hlt in Hctx.
      injection Hctx as Hctx _. exact Hctx.
Qed.

(** The theorem at work: the cancellation arrives twelve calls into the run,
    in the middle of the first of two ticks. *)
Lemma Run_returns_reason_of_cancellation_witness :
  (exists w' evs,
      runs (Run (service Hour) TheContext) world_run (Some ContextCanceled) w' /\
      calls w' = calls world_run ++ evs /\
      ctx_err w' = Some ContextCanceled /\
      schedule evs
      = Op TempFiles :: Ticker (Minute * 10)
        :: List.concat
             (repeat [Woke TickerC; Op TempFiles; Op Snapshots;
                      Op DashboardVersions; Op UserInvites; Op LoginAttempts] 2)
        ++ [Woke CtxDone]) /\
  (forall v k c,
      ctx_err v = None -> cancel_in v = Some (k, c) ->
      exists v' evs,
        runs (tick (service Hour) TheContext) v tt v' /\
        calls v' = calls v ++ evs /\
        schedule evs
        = [Op TempFiles; Op Snapshots; Op DashboardVersions; Op UserInvites;
           Op LoginAttempts] /\
        ((k < List.length evs)%nat -> ctx_err v' = Some c)).
Proof.
  apply (Run_returns_reason_of_cancellation (service Hour) TheContext 2
           world_run [] ContextCanceled).
  - reflexivity.
  - reflexivity.
Defined.

(** C9: with the brute-force login protection disabled,
    [deleteOldLoginAttempts] returns at once and makes no call; so the fifth
    step, granted the lock, makes the lock request and nothing more, and a
    whole run puts no login-attempt delete on the bus and leaves the table of
    login attempts as it was. *)
Theorem disabled_protection_deletes_no_login_attempts
    (srv : CleanUpService) (ctx : Context) :
  DisableBruteForceLoginProtection (Cfg srv) = true ->
  (forall w, exec 1 (deleteOldLoginAttempts srv) w = Returned tt w) /\
  (forall w,
      hd None (lock_answers w) = None ->
      exists w',
        runs (lockedLoginAttempts srv ctx) w tt w' /\
        calls w'
        = calls w
          ++ [Ev (lock_Acquire "delete old login attempts" (Minute * 10)) None] /\
        login_attempt w' = login_attempt w) /\
  (forall n w rest e,
      chosen w = repeat TickerC n ++ CtxDone :: rest ->
      reason w = Some e ->
      exists w' evs,
        runs (Run srv ctx) w (Some e) w' /\
        calls w' = calls w ++ evs /\
        login_deletes evs = [] /\
        login_attempt w' = login_attempt w).
Proof.
  intros Hdis. split; [|split].
  - intros w. unfold deleteOldLoginAttempts. rewrite Hdis. reflexivity.
  - intros w Hlock. exact (lockedLoginAttempts_disabled srv ctx w Hdis Hlock).
  - intros n w rest e Hch Hre.
    destruct (Run_runs srv ctx n w rest e Hch Hre)
      as (w' & evs & Hrun & Hc & _ & _ & Hd & _).
    destruct (Hd Hdis) as [Hnone Hsame].
    exists w', evs. repeat split; assumption.
Qed.

(** The theorem at work on the service with the protection disabled. *)
Lemma disabled_protection_deletes_no_login_attempts_witness :
  (forall w, exec 1 (deleteOldLoginAttempts service_unprotected) w = Returned tt w) /\
  (forall w,
      hd None (lock_answers w) = None ->
      exists w',
        runs (lockedLoginAttempts service_unprotected TheContext) w tt w' /\
        calls w'
        = calls w
          ++ [Ev (lock_Acquire "delete old login attempts" (Minute * 10)) None] /\
        login_attempt w' = login_attempt w) /\
  (forall n w rest e,
      chosen w = repeat TickerC n ++ CtxDone :: rest ->
      reason w = Some e ->
      exists w' evs,
        runs (Run service_unprotected TheContext) w (Some e) w' /\
        calls w' = calls w ++ evs /\
        login_deletes evs = [] /\
        login_attempt w' = login_attempt w).
Proof.
  apply (disabled_protection_deletes_no_login_attempts service_unprotected
           TheContext).
  reflexivity.
Defined.


(** A whole run, evaluated: two ticks, the first refused the lock, the
    second granted it; the cancellation arrives during the first tick and is
    returned when the third select takes the Done case. *)
Example Run_of_two_ticks :
  exists w',
    exec 100 (Run (service Hour) TheContext) world_run
    = Returned (Some ContextCanceled) w' /\
    schedule (calls w')
    = [Op TempFiles; Ticker (Minute * 10);
       Woke TickerC; Op TempFiles; Op Snapshots; Op DashboardVersions;
       Op UserInvites; Op LoginAttempts;
       Woke TickerC; Op TempFiles; Op Snapshots; Op DashboardVersions;
       Op UserInvites; Op LoginAttempts;
       Woke CtxDone] /\
    dir_state w' = Listing [fileB T0] /\
    temp_user w' = [inviteYoung] /\
    login_deletes (calls w') = [Add T0 (Minute * -10)] /\
    login_attempt w' = [].
Proof.
  eexists. split; [vm_compute; reflexivity|].
  repeat split.
Qed.

(** * Further properties of the code *)

(** ** The expiration policy *)

(** X1: the policy is monotone.  A file that is stale at some instant is
    stale at every later instant, and so is every file modified earlier. *)
Theorem shouldCleanupTempFile_monotone
    (srv : CleanUpService) (filemtime filemtime' now now' : Time) :
  filemtime' <= filemtime -> now <= now' ->
  shouldCleanupTempFile srv filemtime now = true ->
  shouldCleanupTempFile srv filemtime' now' = true.
Proof.
  unfold shouldCleanupTempFile, Before, Add. intros Hm Hn.
  destruct (TempDataLifetime (Cfg srv) =? 0); [discriminate|].
  rewrite !Z.ltb_lt. lia.
Qed.

(** The theorem at work: file A, stale at [T0], an hour later. *)
Lemma shouldCleanupTempFile_monotone_witness :
  shouldCleanupTempFile (service Hour) (ModTime (fileA T0)) (T0 + Hour) = true.
Proof.
  apply (shouldCleanupTempFile_monotone (service Hour) (ModTime (fileA T0))
           (ModTime (fileA T0)) T0 (T0 + Hour)).
  - vm_compute. discriminate.
  - vm_compute. discriminate.
  - reflexivity.
Defined.

(** ** The deletion of expired invites, for every lifetime *)

Lemma wrap64_small (z : Z) : - 2 ^ 63 <= z < 2 ^ 63 -> wrap64 z = z.
Proof. intros H. unfold wrap64. rewrite Z.mod_small; lia. Qed.

Lemma wrap64_over (z : Z) :
  2 ^ 63 <= z < 2 ^ 64 + 2 ^ 63 -> wrap64 z = z - 2 ^ 64.
Proof.
  intros H. unfold wrap64.
  replace (z + 2 ^ 63) with (z - 2 ^ 63 + 1 * 2 ^ 64) by lia.
  rewrite Z_mod_plus_full, Z.mod_small; lia.
Qed.

(** Up to 106751 days either way the product of the days, 24 and an hour
    fits an int64, and the cutoff lies that many days before now. *)
Lemma inviteCutoff_exact (srv : CleanUpService) (t : Time) :
  -106751 <= UserInviteMaxLifetimeDays (Cfg srv) <= 106751 ->
  maxInviteLifetime srv = UserInviteMaxLifetimeDays (Cfg srv) * Day /\
  inviteCutoff srv t = Unix t - UserInviteMaxLifetimeDays (Cfg srv) * 86400.
Proof.
  intros H. unfold inviteCutoff, maxInviteLifetime, mul64, neg64.
  set (d := UserInviteMaxLifetimeDays (Cfg srv)) in *.
  rewrite (wrap64_small (d * 24)) by lia.
  rewrite (wrap64_small (d * 24 * Hour)) by (unfold Hour, Minute, Second; lia).
  rewrite (wrap64_small (- (d * 24 * Hour))) by (unfold Hour, Minute, Second; lia).
  split; [unfold Day; lia|].
  replace (- (d * 24 * Hour)) with (- (d * 86400) * Second)
    by (unfold Hour, Minute, Second; lia).
  rewrite Unix_shift. lia.
Qed.

(** From 106752 days on the product passes the greatest int64 and wraps
    to a negative lifetime: the cutoff lies after now. *)
Lemma inviteCutoff_wrapped (srv : CleanUpService) (t : Time) :
  106752 <= UserInviteMaxLifetimeDays (Cfg srv) <= 213503 ->
  maxInviteLifetime srv = UserInviteMaxLifetimeDays (Cfg srv) * Day - 2 ^ 64 /\
  maxInviteLifetime srv < 0 /\
  Unix t <= inviteCutoff srv t.
Proof.
  intros H. unfold inviteCutoff, maxInviteLifetime, mul64, neg64.
  set (d := UserInviteMaxLifetimeDays (Cfg srv)) in *.
  rewrite (wrap64_small (d * 24)) by lia.
  rewrite (wrap64_over (d * 24 * Hour)) by (unfold Hour, Minute, Second; lia).
  rewrite (wrap64_small (- (d * 24 * Hour - 2 ^ 64)))
    by (unfold Hour, Minute, Second; lia).
  split; [unfold Day; lia|]. split; [unfold Hour, Minute, Second; lia|].
  unfold Unix, Add. apply Z.div_le_mono; [reflexivity|].
  unfold Hour, Minute, Second. lia.
Qed.

Lemma len_filter_split {A} (p : A -> bool) (l : list A) :
  len (filter p l) = len l - len (filter (fun x => negb (p x)) l).
Proof. unfold len. rewrite <- (filter_length p l). lia. Qed.

(** X2: for a lifetime of up to 106751 days and a statement that succeeds,
    [deleteExpiredUserInvites] deletes exactly the invites created at or
    before [now - days] (to the second), keeps the others, and returns the
    number of rows it took with a nil error.  Zero days is no exception, all
    invites created up to this second go; and a negative number of days
    puts the cutoff that many days after now. *)
Theorem invites_deleted_up_to_cutoff
    (srv : CleanUpService) (ctx : Context) (w : World) :
  -106751 <= UserInviteMaxLifetimeDays (Cfg srv) <= 106751 ->
  hd NoFault (db_faults w) = NoFault ->
  exists w',
    runs (deleteExpiredUserInvites srv ctx) w
      (len (temp_user w) - len (temp_user w'), None) w' /\
    forall u,
      In u (temp_user w') <->
      In u (temp_user w) /\
      Unix (now w) - UserInviteMaxLifetimeDays (Cfg srv) * 86400 < created_at u.
Proof.
  intros Hdays Hfault.
  destruct (deleteExpiredUserInvites_deletes srv ctx w Hfault)
    as (w' & Hrun & Ht & _).
  destruct (inviteCutoff_exact srv (now w) Hdays) as [_ Hcut].
  exists w'. split.
  - rewrite Ht, <- len_filter_split. exact Hrun.
  - intros u. rewrite Ht, filter_In, negb_true_iff. unfold expired.
    rewrite Z.leb_gt, Hcut. tauto.
Qed.

(** The theorem at work: three days, the two invites of the scenario. *)
Lemma invites_deleted_up_to_cutoff_witness :
  exists w',
    runs (deleteExpiredUserInvites (service Hour) TheContext) world_invites
      (len (temp_user world_invites) - len (temp_user w'), None) w' /\
    forall u,
      In u (temp_user w') <->
      In u (temp_user world_invites) /\
      Unix (now world_invites) - 3 * 86400 < created_at u.
Proof.
  apply (invites_deleted_up_to_cutoff (service Hour) TheContext world_invites).
  - vm_compute. split; discriminate.
  - reflexivity.
Defined.

(** X3: from 106752 to 213503 days the int64 product of the lifetime wraps
    to a negative duration, and the deletion takes every invite created up to
    now, the newest included. *)
Theorem invite_lifetime_overflow_deletes_all
    (srv : CleanUpService) (ctx : Context) (w : World) :
  106752 <= UserInviteMaxLifetimeDays (Cfg srv) <= 213503 ->
  hd NoFault (db_faults w) = NoFault ->
  maxInviteLifetime srv < 0 /\
  exists w' n,
    runs (deleteExpiredUserInvites srv ctx) w (n, None) w' /\
    forall u, In u (temp_user w) -> created_at u <= Unix (now w) ->
              ~ In u (temp_user w').
Proof.
  intros Hdays Hfault.
  destruct (inviteCutoff_wrapped srv (now w) Hdays) as (_ & Hneg & Hcut).
  split; [exact Hneg|].
  destruct (deleteExpiredUserInvites_deletes srv ctx w Hfault)
    as (w' & Hrun & Ht & _).
  exists w', (len (filter (expired srv (now w)) (temp_user w))).
  split; [exact Hrun|].
  intros u Hin Hle. rewrite Ht, filter_In, negb_true_iff. unfold expired.
  rewrite Z.leb_gt. lia.
Qed.

(** The theorem at work: 106752 days, about 292 years. *)
Lemma invite_lifetime_overflow_deletes_all_witness :
  maxInviteLifetime (service_days 106752) < 0 /\
  exists w' n,
    runs (deleteExpiredUserInvites (service_days 106752) TheContext)
      world_invites (n, None) w' /\
    forall u, In u (temp_user world_invites) ->
              created_at u <= Unix (now world_invites) ->
              ~ In u (temp_user w').
Proof.
  apply (invite_lifetime_overflow_deletes_all (service_days 106752) TheContext
           world_invites).
  - vm_compute. split; discriminate.
  - reflexivity.
Defined.

(** X4: when the statement itself fails, [deleteExpiredUserInvites] returns
    a count of 0 with the error of the session and deletes nothing; the one
    record it writes is the Debug record of the start, so the failure is in
    no log record of its own. *)
Theorem exec_failure_is_returned_not_logged
    (srv : CleanUpService) (ctx : Context) (w : World) (e : error)
    (more : list DbFault) :
  db_faults w = ExecFails e :: more ->
  exists w',
    runs (deleteExpiredUserInvites srv ctx) w (0, Some e) w' /\
    calls w'
    = calls w ++ invite_calls srv (now w) (mkResult 0 None, Some e) /\
    temp_user w' = temp_user w.
Proof.
  intros Hfault.
  destruct (invites_statement srv w) as (wA & wB & HA & HB & Bt & Bf & Bc).
  assert (Hexec : exists w1,
             db_exec (arrive wB) deleteInvitesSql [inviteCutoff srv (now w)]
             = ((mkResult 0 None, Some e), w1) /\
             temp_user w1 = temp_user w /\
             calls w1 = calls (arrive wB)).
  { unfold db_exec, next_fault. rewrite Bf, Hfault. simpl.
    eexists. split; [reflexivity|]. split; [exact Bt|reflexivity]. }
  destruct Hexec as (w1 & Hexec & Ht1 & Hc1).
  set (evC := Ev (db_Exec deleteInvitesSql [inviteCutoff srv (now w)])
                (mkResult 0 None, Some e)).
  exists (record evC w1). split; [|split].
  - unfold deleteExpiredUserInvites, WithDbSession.
    eapply runs_bind; [exact HA|]. cbv beta zeta.
    eapply runs_bind; [exact HB|]. cbv beta.
    eapply runs_bind;
      [apply runs_trigger; simpl; unfold inviteCutoff in Hexec; rewrite Hexec;
       reflexivity|].
    apply runs_ret.
  - change (calls (record evC w1)) with (calls w1 ++ [evC]).
    rewrite Hc1, Bc. unfold invite_calls. rewrite <- !app_assoc. reflexivity.
  - exact Ht1.
Qed.

(** A world whose next statement fails *)
Lemma exec_failure_is_returned_not_logged_witness :
  exists w',
    runs (deleteExpiredUserInvites (service Hour) TheContext)
      (set_db_faults [ExecFails ContextCanceled] world_invites)
      (0, Some ContextCanceled) w' /\
    calls w'
    = calls (set_db_faults [ExecFails ContextCanceled] world_invites)
      ++ invite_calls (service Hour)
           (now (set_db_faults [ExecFails ContextCanceled] world_invites))
           (mkResult 0 None, Some ContextCanceled) /\
    temp_user w'
    = temp_user (set_db_faults [ExecFails ContextCanceled] world_invites).
Proof.
  apply (exec_failure_is_returned_not_logged (service Hour) TheContext
           (set_db_faults [ExecFails ContextCanceled] world_invites)
           ContextCanceled []).
  reflexivity.
Defined.

(** ** The clock and the faults after a run *)

Lemma replay_refl (w : World) : replay w w [].
Proof. split; reflexivity. Qed.

Lemma replay_trans (w w1 w2 : World) (evs1 evs2 : list event) :
  replay w w1 evs1 -> replay w1 w2 evs2 -> replay w w2 (evs1 ++ evs2).
Proof.
  intros [c1 f1] [c2 f2]. split.
  - unfold readings. rewrite flat_map_app, length_app, c2, c1, Nat.add_comm.
    symmetry. apply Nat.iter_add.
  - unfold statements. rewrite flat_map_app, length_app, f2, f1, skipn_skipn.
    f_equal. apply Nat.add_comm.
Qed.

(** One call: only [time.Now] moves the clock, only a statement takes a
    fault. *)
Lemma handle_replay {T} (e : E T) (w : World) (a : T) (w1 : World) :
  handle e (arrive w) = Some (a, w1) ->
  calls w1 = calls w /\ replay w w1 [Ev e a].
Proof.
  destruct (arrive_is_set_ctx w) as (e0 & c0 & ->). intros H.
  destruct e; simpl in H.
  - injection H as <- <-. repeat split.
  - injection H as <- <-. repeat split.
  - unfold fs_remove in H. simpl in H.
    destruct (remove_err w name); [injection H as <- <-; repeat split|].
    destruct (dir_state w) as [|e|files];
      [| |destruct (existsb _ files)]; injection H as <- <-; repeat split.
  - unfold clock_read in H. simpl in H. injection H as <- <-.
    destruct (later w) eqn:Hl; (split; [reflexivity|]); split; simpl;
      unfold advance, clock; simpl; rewrite ?Hl; reflexivity.
  - injection H as <- <-. repeat split.
  - injection H as <- <-. repeat split.
  - injection H as <- <-. repeat split.
  - unfold bus_dispatch, next_bus in H. simpl in H.
    destruct (bus_answers w) as [|[n [err|]] l]; destruct cmd;
      injection H as <- <-; repeat split.
  - unfold lock_acquire in H. simpl in H.
    destruct (lock_answers w); injection H as <- <-; repeat split.
  - unfold db_exec, next_fault in H. simpl in H.
    destruct (db_faults w) as [|[|e|n e] l] eqn:Hf;
      destruct (parse_delete sql) as [st|];
      destruct args as [|bound [|x args]];
      try destruct (String.eqb (del_table st) "temp_user");
      try destruct (temp_user_column (del_column st));
      injection H as <- <-;
      (split; [reflexivity|split; simpl; rewrite ?Hf; reflexivity]).
  - unfold select_case in H. simpl in H.
    destruct (chosen w) as [|[|] l]; [discriminate| |].
    + injection H as <- <-. repeat split.
    + destruct (reason (set_ctx e0 c0 w)); [|discriminate].
      injection H as <- <-. repeat split.
  - injection H as <- <-. repeat split.
Qed.

Lemma exec_replay {R} (fuel : nat) :
  forall (t : itree E R) (w : World) (r : R) (w' : World),
    exec fuel t w = Returned r w' ->
    exists evs, calls w' = calls w ++ evs /\ replay w w' evs.
Proof.
  induction fuel as [|fuel IH]; intros t w r w' H; simpl in H; [discriminate|].
  destruct (observe t) as [r0|t'|T e k].
  - injection H as _ <-. exists []. split; [symmetry; apply app_nil_r|].
    apply replay_refl.
  - exact (IH _ _ _ _ H).
  - destruct (handle e (arrive w)) as [[a w1]|] eqn:Hh; [|discriminate].
    destruct (handle_replay e w a w1 Hh) as [Hc Hr].
    destruct (IH _ _ _ _ H) as (evs & Hc' & Hr').
    exists ([Ev e a] ++ evs). split.
    + rewrite Hc'. simpl. rewrite Hc, <- app_assoc. reflexivity.
    + apply (replay_trans w (record (Ev e a) w1)); [|exact Hr'].
      destruct Hr as [rc rf]. split; assumption.
Qed.

(** The clock and the faults a run leaves are told by its calls. *)
Lemma runs_replay {R} (t : itree E R) (w : World) (r : R) (w' : World)
    (evs : list event) :
  runs t w r w' -> calls w' = calls w ++ evs -> replay w w' evs.
Proof.
  intros [fuel H] Hc. destruct (exec_replay fuel t w r w' H) as (evs' & Hc' & Hr).
  rewrite Hc in Hc'. apply app_inv_head in Hc'. subst evs'. exact Hr.
Qed.

(** The cutoff moves with the clock. *)
Lemma inviteCutoff_mono (srv : CleanUpService) (t t' : Time) :
  t <= t' -> inviteCutoff srv t <= inviteCutoff srv t'.
Proof.
  intros H. unfold inviteCutoff, Unix, Add.
  apply Z.div_le_mono; [reflexivity|lia].
Qed.

(** X5: two deletions of invites in a row, with a clock that does not go
    back and two statements that succeed, leave what one deletion at the
    second reading leaves, and their counts add up to the rows gone.  When
    the clock stands still the second deletion takes nothing and counts 0. *)
Theorem invites_deleted_twice
    (srv : CleanUpService) (ctx : Context) (w : World) :
  now w <= hd (now w) (later w) ->
  hd NoFault (db_faults w) = NoFault ->
  hd NoFault (tl (db_faults w)) = NoFault ->
  exists n1 w1 n2 w2,
    runs (deleteExpiredUserInvites srv ctx) w (n1, None) w1 /\
    runs (deleteExpiredUserInvites srv ctx) w1 (n2, None) w2 /\
    temp_user w2
    = filter (fun u => negb (expired srv (hd (now w) (later w)) u)) (temp_user w) /\
    n1 + n2 = len (temp_user w) - len (temp_user w2) /\
    (later w = [] -> n2 = 0 /\ temp_user w2 = temp_user w1).
Proof.
  intros Hclock Hf1 Hf2.
  destruct (deleteExpiredUserInvites_deletes srv ctx w Hf1)
    as (w1 & Hrun1 & Ht1 & Hc1).
  pose proof (runs_replay _ _ _ _ _ Hrun1 Hc1) as [Hck Hfl].
  simpl in Hck, Hfl.
  assert (Hn1 : now w1 = hd (now w) (later w)).
  { unfold advance, clock in Hck. simpl in Hck.
    destruct (later w); injection Hck as Hn _; exact Hn. }
  assert (Hfl1 : hd NoFault (db_faults w1) = NoFault).
  { rewrite Hfl. destruct (db_faults w); [reflexivity|exact Hf2]. }
  destruct (deleteExpiredUserInvites_deletes srv ctx w1 Hfl1)
    as (w2 & Hrun2 & Ht2 & _).
  set (t1 := now w) in *. set (t2 := hd t1 (later w)) in *.
  rewrite Hn1 in Hrun2, Ht2. rewrite Ht1 in Hrun2, Ht2.
  assert (Hkeep : filter (fun u => negb (expired srv t2 u))
                    (filter (fun u => negb (expired srv t1 u)) (temp_user w))
                  = filter (fun u => negb (expired srv t2 u)) (temp_user w)).
  { rewrite filter_filter. apply filter_ext. intros u. unfold expired.
    pose proof (inviteCutoff_mono srv t1 t2 Hclock).
    destruct (Z.leb_spec (created_at u) (inviteCutoff srv t1));
      destruct (Z.leb_spec (created_at u) (inviteCutoff srv t2));
      simpl; try reflexivity; lia. }
  eexists _, w1, _, w2. split; [exact Hrun1|]. split; [exact Hrun2|].
  split; [rewrite Ht2; exact Hkeep|]. split.
  - rewrite Ht2, Hkeep.
    rewrite (len_filter_split (expired srv t1) (temp_user w)).
    rewrite (len_filter_split (expired srv t2)
               (filter (fun u => negb (expired srv t1 u)) (temp_user w))).
    rewrite Hkeep. lia.
  - intros Hl. assert (Ht : t2 = t1) by (unfold t2; rewrite Hl; reflexivity).
    rewrite Ht in *.
    assert (Hnone : filter (expired srv t1)
                      (filter (fun u => negb (expired srv t1 u)) (temp_user w))
                    = []).
    { rewrite filter_filter. clear. induction (temp_user w) as [|u l IH];
        simpl; [reflexivity|].
      destruct (expired srv t1 u); simpl; exact IH. }
    split; [rewrite Hnone; reflexivity|].
    rewrite Ht2, Ht1, filter_filter. apply filter_ext. intros u.
    destruct (expired srv t1 u); reflexivity.
Qed.

(** The theorem at work: the clock reads a day later the second time, and
    the younger invite has come of age. *)
Lemma invites_deleted_twice_witness :
  exists n1 w1 n2 w2,
    runs (deleteExpiredUserInvites (service Hour) TheContext)
      (set_later [T0 + Day] world_invites) (n1, None) w1 /\
    runs (deleteExpiredUserInvites (service Hour) TheContext) w1 (n2, None) w2 /\
    temp_user w2
    = filter (fun u => negb (expired (service Hour)
                               (hd (now (set_later [T0 + Day] world_invites))
                                  (later (set_later [T0 + Day] world_invites))) u))
        (temp_user (set_later [T0 + Day] world_invites)) /\
    n1 + n2
    = len (temp_user (set_later [T0 + Day] world_invites)) - len (temp_user w2) /\
    (later (set_later [T0 + Day] world_invites) = [] ->
     n2 = 0 /\ temp_user w2 = temp_user w1).
Proof.
  apply (invites_deleted_twice (service Hour) TheContext
           (set_later [T0 + Day] world_invites)).
  - vm_compute. discriminate.
  - reflexivity.
  - reflexivity.
Defined.

(** ** The temp-file pass, whatever the system answers *)

Lemma removed_app (srv : CleanUpService) (a b : list event)
    (fa fb : list FileInfo) :
  removed srv fa a -> removed srv fb b -> removed srv (fa ++ fb) (a ++ b).
Proof.
  intros (A1 & A2 & A3 & A4 & A5) (B1 & B2 & B3 & B4 & B5).
  unfold removed, removals, refusals, failures, readings, listed, tallies in *.
  rewrite !flat_map_app, !map_app, A1, A2, A3, A4, A5, B1, B2, B3, B4, B5.
  repeat split.
Qed.

(** The removal loop goes through all of [toDelete]: a failure is put on
    record and the loop goes on. *)
Lemma removeAll_removed (srv : CleanUpService) (toDelete : list FileInfo) :
  safe (fun evs _ => removed srv toDelete evs) (removeAll srv toDelete).
Proof.
  induction toDelete as [|file more IH].
  - apply safe_Ret. repeat split.
  - call. destruct a as [e|].
    + call. revert IH. apply safe_weaken.
      intros evs _ H.
      apply (removed_app srv [_; _] evs [file] more); [repeat split|exact H].
    + enter. resume. revert IH. apply safe_weaken.
      intros evs _ H.
      apply (removed_app srv [_] evs [file] more); [repeat split|exact H].
Qed.

Lemma cleanUpTmpFiles_pass_calls (srv : CleanUpService) :
  safe (fun evs _ => pass_calls srv evs) (cleanUpTmpFiles srv).
Proof.
  unfold cleanUpTmpFiles. call.
  destruct (os_IsNotExist a).
  { done_calls. repeat split; try contradiction. left. reflexivity. }
  call. destruct a0 as [files [e|]].
  - call. done_calls. repeat split; simpl in *; try contradiction.
    left. reflexivity.
  - call.
    apply (safe_bind _ _ (fun evs _ => removed srv (collect srv a0 files) evs));
      [apply removeAll_removed|].
    intros evs _ (H1 & H2 & H3 & H4 & H5). call. done_calls.
    unfold pass_calls, removals, refusals, failures, readings, listed, tallies
      in *.
    cbn [flat_map removal refusal failure reading listing tally app].
    rewrite !flat_map_app, H1, H2, H3, H4, H5.
    cbn [flat_map removal refusal failure reading listing tally app hd].
    rewrite !app_nil_r, collect_filter.
    split; [reflexivity|]. split; [reflexivity|]. split.
    + intros d k Hin. simpl in Hin. destruct Hin as [Hin|[]].
      injection Hin as <- <-. split; [|reflexivity].
      unfold len. rewrite length_map. reflexivity.
    + right. exists a0. reflexivity.
Qed.

(** X6: from every world the temp-file pass returns, and its calls show
    one [os.Remove] for each listed file the policy selects at the instant
    the pass read, in the order of the listing, on [Join(ImagesDir, name)],
    and no other; every removal the system refuses is put on record under
    the file's name, and the loop goes on to the next file; the "deleted"
    count of the last record is the number of removals tried, refused or
    not.  A pass that lists files reads the clock once, and judges all of
    them by that one instant. *)
Theorem pass_removes_what_the_policy_selects
    (srv : CleanUpService) (w : World) :
  exists w' evs,
    runs (cleanUpTmpFiles srv) w tt w' /\
    calls w' = calls w ++ evs /\
    removals evs
    = map (fullPath srv)
        (filter (stale srv (hd 0 (readings evs))) (listed evs)) /\
    refusals evs
    = map (fun ne => (path_Join (ImagesDir (Cfg srv)) (fst ne), snd ne))
        (failures evs) /\
    (forall d k, In (d, k) (tallies evs) ->
                 d = len (removals evs) /\ k = len (listed evs)) /\
    (listed evs = [] \/ exists t, readings evs = [t]).
Proof.
  destruct (safe_sound _ (cleanUpTmpFiles srv) w (cleanUpTmpFiles_pass_calls srv))
    as ([] & w' & evs & Hrun & Hfr & H1 & H2 & H3 & H4).
  exists w', evs. split; [exact Hrun|]. split; [exact (fr_calls _ _ _ Hfr)|].
  split; [exact H1|]. split; [exact H2|]. split; [exact H3|exact H4].
Qed.

(** A pass in which the system refuses one of two stale files: the
    second is still removed, the refusal is on record, and the last record
    counts both as deleted. *)
Example pass_with_a_refusal :
  exists w',
    exec 100 (cleanUpTmpFiles (service Hour))
      (mkWorld "data/png" (Listing [fileA T0; fileEdge; mkFileInfo "C.png" 0])
         (fun p => if String.eqb p "data/png/A.png" then Some ErrPermission
                   else None)
         T0 [] [] [] [] [] [] [] None None [])
    = Returned tt w' /\
    removals (calls w') = ["data/png/A.png"; "data/png/C.png"] /\
    refusals (calls w') = [("data/png/A.png", ErrPermission)] /\
    failures (calls w') = [("A.png", ErrPermission)] /\
    tallies (calls w') = [(2, 3)] /\
    dir_state w' = Listing [fileA T0; fileEdge].
Proof.
  eexists. split; [vm_compute; reflexivity|]. repeat split.
Qed.

(** ** The temp-file pass without a directory to read *)

(** X7: when the images directory does not exist, the pass is the one call
    of [os.Stat]: nothing is listed, removed or put on record, and the pass
    returns. *)
Theorem missing_directory_ends_the_pass (srv : CleanUpService) (w : World) :
  dir_state w = Missing ->
  runs (cleanUpTmpFiles srv) w tt
    (after (Ev (os_Stat (ImagesDir (Cfg srv))) (Some ErrNotExist)) w).
Proof.
  intros Hdir. destruct (arrive_disk w) as (_ & _ & Hs).
  unfold cleanUpTmpFiles.
  eapply runs_bind.
  - apply runs_trigger. simpl. unfold fs_stat. rewrite Hs, Hdir.
    destruct (String.eqb _ _); reflexivity.
  - cbn [os_IsNotExist]. apply runs_ret.
Qed.

Lemma missing_directory_ends_the_pass_witness :
  runs (cleanUpTmpFiles (service Hour)) world_missing tt
    (after (Ev (os_Stat (ImagesDir (Cfg (service Hour)))) (Some ErrNotExist))
       world_missing).
Proof.
  apply (missing_directory_ends_the_pass (service Hour) world_missing).
  reflexivity.
Defined.

(** X8: when the images directory is there and [ioutil.ReadDir] fails, the
    pass puts the error on record and returns: after [os.Stat] and
    [ioutil.ReadDir] comes the one Error record, the clock is not read and
    nothing is removed. *)
Theorem unreadable_directory_is_put_on_record
    (srv : CleanUpService) (w : World) (e : error) :
  ImagesDir (Cfg srv) = dir_path w ->
  dir_state w = Unreadable e ->
  runs (cleanUpTmpFiles srv) w tt
    (after (Ev (log_Error "Problem reading image dir" [("error", VErr e)]) tt)
       (after (Ev (ioutil_ReadDir (ImagesDir (Cfg srv))) ([], Some e))
          (after (Ev (os_Stat (ImagesDir (Cfg srv))) None) w))).
Proof.
  intros Hpath Hdir.
  set (dir := ImagesDir (Cfg srv)) in *.
  set (wA := after (Ev (os_Stat dir) None) w).
  destruct (after_fields (Ev (os_Stat dir) None) w) as (Ad & _ & As & _).
  fold wA in Ad, As. destruct (disk_inv _ _ Ad) as [Ap _].
  destruct (arrive_disk w) as (Xd & _ & Xs). destruct (disk_inv _ _ Xd) as [Xp _].
  destruct (arrive_disk wA) as (Yd & _ & Ys). destruct (disk_inv _ _ Yd) as [Yp _].
  assert (HA : runs (ITree.trigger (os_Stat dir)) w None wA).
  { apply runs_trigger. simpl. unfold fs_stat.
    rewrite Xp, <- Hpath, String.eqb_refl, Xs, Hdir. reflexivity. }
  assert (HB : runs (ITree.trigger (ioutil_ReadDir dir)) wA ([], Some e)
                 (after (Ev (ioutil_ReadDir dir) ([], Some e)) wA)).
  { apply runs_trigger. simpl. unfold fs_readdir.
    rewrite Yp, Ap, <- Hpath, String.eqb_refl, Ys, As, Hdir. reflexivity. }
  unfold cleanUpTmpFiles. fold dir.
  eapply runs_bind; [exact HA|]. cbn [os_IsNotExist].
  eapply runs_bind; [exact HB|]. cbv beta iota.
  apply runs_trigger. reflexivity.
Qed.

Lemma unreadable_directory_is_put_on_record_witness :
  runs (cleanUpTmpFiles (service Hour)) world_unreadable tt
    (after (Ev (log_Error "Problem reading image dir"
                  [("error", VErr ErrPermission)]) tt)
       (after (Ev (ioutil_ReadDir (ImagesDir (Cfg (service Hour))))
                 ([], Some ErrPermission))
          (after (Ev (os_Stat (ImagesDir (Cfg (service Hour)))) None)
             world_unreadable))).
Proof.
  apply (unreadable_directory_is_put_on_record (service Hour) world_unreadable
           ErrPermission).
  - reflexivity.
  - reflexivity.
Defined.

(** ** How a run ends *)

Lemma exec_bind_blocked {A R} (k : A -> itree E R) (fuel : nat) :
  forall (t : itree E A) (w w' : World),
    exec fuel t w = Blocked w' ->
    exec fuel (ITree.bind t k) w = Blocked w'.
Proof.
  induction fuel as [|fuel IH]; intros t w w' Ht; simpl in Ht; [discriminate|].
  change (exec (S fuel) (ITree.bind t k) w)
    with (match observe (ITree.bind t k) with
          | RetF r => Returned r w
          | TauF t' => exec fuel t' w
          | VisF e k' =>
              match handle e (arrive w) with
              | None => Blocked w
              | Some (x, w1) => exec fuel (k' x) (record (Ev e x) w1)
              end
          end).
  rewrite observe_bind. destruct (observe t) as [r|t'|T e ke].
  - discriminate.
  - simpl. apply IH. exact Ht.
  - simpl. destruct (handle e (arrive w)) as [[x w2]|]; [apply IH; exact Ht|].
    injection Ht as <-. reflexivity.
Qed.

(** A tree that blocks, blocks whatever comes after it. *)
Lemma blocks_bind_left {A R} (t : itree E A) (k : A -> itree E R) w w' :
  blocks t w w' -> blocks (ITree.bind t k) w w'.
Proof. intros [fuel H]. exists fuel. apply exec_bind_blocked. exact H. Qed.

Lemma blocks_bind_right {A R} (t : itree E A) (k : A -> itree E R) w a w1 w' :
  runs t w a w1 -> blocks (k a) w1 w' -> blocks (ITree.bind t k) w w'.
Proof.
  intros [f1 H1] [f2 H2]. exists (f1 + f2)%nat.
  apply (exec_bind k f1 t w a w1 f2 (Blocked w') H1 H2). discriminate.
Qed.

Lemma blocks_trigger {T} (e : E T) (w : World) :
  handle e (arrive w) = None -> blocks (ITree.trigger e) w w.
Proof. intros H. exists 1%nat. cbn. rewrite H. reflexivity. Qed.

Lemma blocks_observe {R} (t u : itree E R) w w' :
  observe t = observe u -> blocks u w w' -> blocks t w w'.
Proof.
  intros H [fuel Hrun]. exists fuel.
  rewrite (exec_observe fuel t u w H). exact Hrun.
Qed.

Lemma blocks_tau {R} (t : itree E R) w w' :
  blocks t w w' -> blocks (Tau t) w w'.
Proof. intros [fuel Hrun]. exists (S fuel). exact Hrun. Qed.

(** A run does not both return and block. *)
Lemma runs_not_blocks {R} (t : itree E R) w r w1 w2 :
  runs t w r w1 -> blocks t w w2 -> False.
Proof.
  intros [f1 H1] [f2 H2].
  assert (E1 : exec (f1 + f2) t w = Returned r w1)
    by (apply (exec_more f1); [assumption|discriminate|lia]).
  assert (E2 : exec (f1 + f2) t w = Blocked w2)
    by (apply (exec_more f2); [assumption|discriminate|lia]).
  rewrite E1 in E2. discriminate.
Qed.

Section Ends.

Variables (srv : CleanUpService) (ctx : Context).

(** A property of the calls that the steps keep *)
Variable I : list event -> Prop.
Hypothesis I_nil : I [].
Hypothesis I_app : forall a b, I a -> I b -> I (a ++ b).
Hypothesis I_wait : forall T (e : E T) (a : T), waits e = true -> I [Ev e a].
Hypothesis I_ticker : forall d, I [Ev (time_NewTicker d) tt].
Hypothesis I_pass : safe (fun evs _ => I evs) (cleanUpTmpFiles srv).
Hypothesis I_tick : safe (fun evs _ => I evs) (tick srv ctx).

(** Whatever cases the selects take, the loop ends in one of two ways: a
    select takes the Done case and the loop returns the reason of the
    cancellation, or a select has no case to take. *)
Lemma loop_ends (l : list Chosen) :
  forall w : World,
    chosen w = l ->
    exists w' evs,
      calls w' = calls w ++ evs /\ I evs /\
      ((exists e, runs (loop srv ctx) w (Some e) w' /\
                  reason w = Some e /\ ctx_err w' = Some e) \/
       blocks (loop srv ctx) w w').
Proof.
  induction l as [|c l IH]; intros w Hch.
  - exists w, []. split; [symmetry; apply app_nil_r|]. split; [exact I_nil|].
    right. unfold loop. eapply blocks_observe; [apply observe_iter|].
    apply blocks_bind_left, blocks_bind_left, blocks_trigger.
    simpl. unfold select_case. rewrite arrive_chosen, Hch. reflexivity.
  - destruct c.
    + pose proof (select_tick ctx w _ Hch) as Hsel.
      set (w1 := record (Ev (select_ ctx) TickerC) (set_chosen l (arrive w))).
      destruct (safe_sound _ (tick srv ctx) w1 I_tick)
        as ([] & w2 & evs & Hrun & Hfr & HI).
      assert (Hch2 : chosen w2 = l) by (rewrite (fr_chosen _ _ _ Hfr); reflexivity).
      assert (Hre2 : reason w2 = reason w).
      { rewrite (fr_reason _ _ _ Hfr). unfold w1.
        rewrite reason_record. change (reason (arrive w) = reason w).
        apply reason_arrive. }
      assert (Hbody : runs (c <- ITree.trigger (select_ ctx);;
                            match c with
                            | TickerC => tick srv ctx;; Ret (inl tt)
                            | CtxDone =>
                                err <- ITree.trigger (ctx_Err ctx);; Ret (inr err)
                            end) w (inl tt) w2).
      { eapply runs_bind; [apply (runs_trigger _ _ _ _ Hsel)|].
        cbv beta iota. fold w1.
        eapply runs_bind; [exact Hrun|apply runs_ret]. }
      destruct (IH w2 Hch2) as (w' & evs' & Hc' & HI' & Hend).
      exists w', ([Ev (select_ ctx) TickerC] ++ evs ++ evs').
      split; [|split].
      * rewrite Hc', (fr_calls _ _ _ Hfr). unfold w1. simpl.
        rewrite arrive_calls, <- !app_assoc. reflexivity.
      * apply I_app; [apply I_wait; reflexivity|]. apply I_app; assumption.
      * destruct Hend as [(e & Hrun' & Hre & He)|Hblk].
        -- left. exists e. split; [|split; [congruence|exact He]].
           unfold loop. eapply runs_observe; [apply observe_iter|].
           eapply runs_bind; [exact Hbody|].
           cbv beta iota. apply runs_tau. exact Hrun'.
        -- right. unfold loop. eapply blocks_observe; [apply observe_iter|].
           eapply blocks_bind_right; [exact Hbody|].
           cbv beta iota. apply blocks_tau. exact Hblk.
    + destruct (reason w) as [e|] eqn:Hre.
      * pose proof (select_done ctx w l e Hch Hre) as Hsel.
        set (w1 := record (Ev (select_ ctx) CtxDone)
                     (set_ctx (Some e) None (set_chosen l (arrive w)))).
        assert (Herr : handle (ctx_Err ctx) (arrive w1) = Some (Some e, w1))
          by (rewrite (arrive_cancelled w1 e eq_refl); reflexivity).
        exists (record (Ev (ctx_Err ctx) (Some e)) w1),
          ([Ev (select_ ctx) CtxDone] ++ [Ev (ctx_Err ctx) (Some e)]).
        split; [|split].
        -- simpl. rewrite arrive_calls, <- app_assoc. reflexivity.
        -- apply I_app; apply I_wait; reflexivity.
        -- left. exists e. split; [|split; reflexivity].
           unfold loop. eapply runs_observe; [apply observe_iter|].
           eapply runs_bind.
           ++ eapply runs_bind; [apply (runs_trigger _ _ _ _ Hsel)|].
              cbv beta iota.
              eapply runs_bind; [apply (runs_trigger _ _ _ _ Herr)|apply runs_ret].
           ++ cbv beta iota. apply runs_ret.
      * exists w, []. split; [symmetry; apply app_nil_r|]. split; [exact I_nil|].
        right. unfold loop. eapply blocks_observe; [apply observe_iter|].
        apply blocks_bind_left, blocks_bind_left, blocks_trigger.
        simpl. unfold select_case.
        rewrite arrive_chosen, Hch, reason_arrive, Hre. reflexivity.
Qed.

Lemma Run_ends (w : World) :
  exists w' evs,
    calls w' = calls w ++ evs /\ I evs /\
    ((exists e, runs (Run srv ctx) w (Some e) w' /\
                reason w = Some e /\ ctx_err w' = Some e) \/
     blocks (Run srv ctx) w w').
Proof.
  destruct (safe_sound _ (cleanUpTmpFiles srv) w I_pass)
    as ([] & w0 & evs0 & Hrun0 & Hfr0 & HI0).
  set (w1 := record (Ev (time_NewTicker (Minute * 10)) tt) (arrive w0)).
  assert (Hfr1 : frame w0 w1 [Ev (time_NewTicker (Minute * 10)) tt]).
  { destruct (handle_frame (time_NewTicker (Minute * 10)) w0 eq_refl)
      as (a & w2 & Hh & Hfr). simpl in Hh. injection Hh as <- <-. exact Hfr. }
  assert (Hre1 : reason w1 = reason w)
    by (rewrite (fr_reason _ _ _ Hfr1), (fr_reason _ _ _ Hfr0); reflexivity).
  assert (Hhead : runs (cleanUpTmpFiles srv;;
                        ITree.trigger (time_NewTicker (Minute * 10))) w tt w1).
  { eapply runs_bind; [exact Hrun0|]. cbv beta.
    apply (runs_trigger (time_NewTicker (Minute * 10)) w0 tt (arrive w0)).
    reflexivity. }
  destruct (loop_ends (chosen w1) w1 eq_refl) as (w' & evs & Hc & HI & Hend).
  exists w', (evs0 ++ [Ev (time_NewTicker (Minute * 10)) tt] ++ evs).
  split; [|split].
  - rewrite Hc, (fr_calls _ _ _ Hfr1), (fr_calls _ _ _ Hfr0), <- !app_assoc.
    reflexivity.
  - apply I_app; [exact HI0|]. apply I_app; [apply I_ticker|exact HI].
  - destruct Hend as [(e & Hrun & Hre & He)|Hblk].
    + left. exists e. split; [|split; [congruence|exact He]].
      unfold Run. eapply runs_bind; [exact Hrun0|]. cbv beta.
      eapply runs_bind;
        [apply (runs_trigger (time_NewTicker (Minute * 10)) w0 tt (arrive w0));
         reflexivity|].
      exact Hrun.
    + right. unfold Run. eapply blocks_bind_right; [exact Hrun0|]. cbv beta.
      eapply blocks_bind_right;
        [apply (runs_trigger (time_NewTicker (Minute * 10)) w0 tt (arrive w0));
         reflexivity|].
      exact Hblk.
Qed.

End Ends.

(** X9: [Run] returns in one way only.  If it returns, a cancellation of
    the context was there or on its way when it started, and what it returns
    is the reason of that cancellation, [ctx.Err()], never nil; with a
    context that is never cancelled [Run] does not return. *)
Theorem Run_returns_only_when_cancelled
    (srv : CleanUpService) (ctx : Context) (w : World)
    (r : option error) (w' : World) :
  runs (Run srv ctx) w r w' ->
  exists e, r = Some e /\ reason w = Some e /\ ctx_err w' = Some e.
Proof.
  intros Hrun.
  destruct (Run_ends srv ctx (fun _ => True)) with (w := w)
    as (w2 & evs & _ & _ & Hend); auto.
  - eapply safe_weaken; [|apply cleanUpTmpFiles_safe]. auto.
  - eapply safe_weaken; [|apply tick_safe]. auto.
  - destruct Hend as [(e & Hrun2 & Hre & He)|Hblk].
    + destruct (runs_functional _ _ _ _ _ _ Hrun Hrun2) as [-> ->].
      exists e. auto.
    + destruct (runs_not_blocks _ _ _ _ _ Hrun Hblk).
Qed.

(** The theorem at work on the run of two ticks: the cancellation was on its
    way when the run started. *)
Lemma Run_returns_only_when_cancelled_witness :
  exists w',
    runs (Run (service Hour) TheContext) world_run (Some ContextCanceled) w' /\
    exists e,
      Some ContextCanceled = Some e /\ reason world_run = Some e /\
      ctx_err w' = Some e.
Proof.
  assert (H : exists w',
             runs (Run (service Hour) TheContext) world_run
               (Some ContextCanceled) w').
  { eexists. exists 100%nat. vm_compute. reflexivity. }
  destruct H as [w' H]. exists w'. split; [exact H|].
  apply (Run_returns_only_when_cancelled (service Hour) TheContext world_run
           (Some ContextCanceled) w' H).
Defined.

(** ** What a whole run removes *)

Lemma confined_app (srv : CleanUpService) (a b : list event) :
  confined srv a -> confined srv b -> confined srv (a ++ b).
Proof.
  unfold confined, selected, removals, listed, readings.
  intros Ha Hb p Hp. rewrite flat_map_app in Hp. apply in_app_or in Hp.
  destruct Hp as [Hp|Hp];
    [destruct (Ha p Hp) as (f & t & Hf & Ht & Hs & ->)
    |destruct (Hb p Hp) as (f & t & Hf & Ht & Hs & ->)];
    exists f, t; rewrite !flat_map_app; repeat split; auto using in_or_app.
Qed.

Lemma quiet_confined (srv : CleanUpService) (evs : list event) :
  removals evs = [] -> confined srv evs.
Proof. intros H p Hp. rewrite H in Hp. destruct Hp. Qed.

Lemma pass_calls_confined (srv : CleanUpService) (evs : list event) :
  pass_calls srv evs -> confined srv evs.
Proof.
  intros (H1 & _ & _ & H4) p Hp. rewrite H1 in Hp.
  apply in_map_iff in Hp. destruct Hp as (f & <- & Hf).
  apply filter_In in Hf. destruct Hf as [Hf Hs].
  destruct H4 as [H4|[t H4]]; [rewrite H4 in Hf; destruct Hf|].
  rewrite H4 in Hs. exists f, t. rewrite H4.
  repeat split; [exact Hf|left; reflexivity|exact Hs].
Qed.

Lemma deleteExpiredSnapshots_quiet (srv : CleanUpService) :
  safe (fun evs _ => removals evs = []) (deleteExpiredSnapshots srv).
Proof.
  unfold deleteExpiredSnapshots. call.
  destruct a as [cmd [e|]]; call; done_calls.
Qed.

Lemma deleteExpiredDashboardVersions_quiet (srv : CleanUpService) :
  safe (fun evs _ => removals evs = []) (deleteExpiredDashboardVersions srv).
Proof.
  unfold deleteExpiredDashboardVersions. call.
  destruct a as [cmd [e|]]; call; done_calls.
Qed.

Lemma deleteExpiredUserInvites_quiet (srv : CleanUpService) (ctx : Context) :
  safe (fun evs _ => removals evs = []) (deleteExpiredUserInvites srv ctx).
Proof.
  unfold deleteExpiredUserInvites, WithDbSession. call. call. call.
  destruct a1 as [[n [e'|]] [e|]]; try done_calls; call; done_calls.
Qed.

Lemma deleteOldLoginAttempts_quiet (srv : CleanUpService) :
  safe (fun evs _ => removals evs = []) (deleteOldLoginAttempts srv).
Proof.
  unfold deleteOldLoginAttempts.
  destruct (DisableBruteForceLoginProtection (Cfg srv)).
  - done_calls.
  - call. call. destruct a0 as [cmd [e|]]; call; done_calls.
Qed.

Lemma lockedLoginAttempts_quiet (srv : CleanUpService) (ctx : Context) :
  safe (fun evs _ => removals evs = []) (lockedLoginAttempts srv ctx).
Proof.
  unfold lockedLoginAttempts, LockAndExecute. call. destruct a as [e|].
  - call. done_calls.
  - match goal with
    | |- safe ?Q (ITree.subst ?k1 (ITree.subst ?k2 (Ret None))) =>
        change (safe Q (ITree.bind
                          (ITree.bind (deleteOldLoginAttempts srv)
                             (fun _ => Ret (@None error))) k1))
    end.
    apply (safe_bind _ _ (fun evs r => r = None /\ removals evs = [])).
    + eapply safe_bind; [apply deleteOldLoginAttempts_quiet|].
      intros evs u H. cbv beta in *. apply safe_Ret.
      rewrite app_nil_r. split; [reflexivity|exact H].
    + intros evs r (-> & H). done_calls.
      rewrite app_nil_r. exact H.
Qed.

Lemma cleanUpTmpFiles_confined (srv : CleanUpService) :
  safe (fun evs _ => confined srv evs) (cleanUpTmpFiles srv).
Proof.
  eapply safe_weaken; [|apply cleanUpTmpFiles_pass_calls].
  intros evs u. apply pass_calls_confined.
Qed.

Lemma tick_confined (srv : CleanUpService) (ctx : Context) :
  safe (fun evs _ => confined srv evs) (tick srv ctx).
Proof.
  unfold tick.
  eapply safe_bind; [apply cleanUpTmpFiles_confined|].
  intros evs1 u1 H1. cbv beta in *.
  eapply safe_bind; [apply deleteExpiredSnapshots_quiet|].
  intros evs2 u2 H2. cbv beta in *.
  eapply safe_bind; [apply deleteExpiredDashboardVersions_quiet|].
  intros evs3 u3 H3. cbv beta in *.
  eapply safe_bind; [apply deleteExpiredUserInvites_quiet|].
  intros evs4 u4 H4. cbv beta in *.
  eapply safe_weaken; [|apply lockedLoginAttempts_quiet].
  intros evs5 u5 H5. cbv beta in *.
  apply confined_app; [exact H1|]. apply quiet_confined.
  unfold removals in *. rewrite !flat_map_app, H2, H3, H4, H5. reflexivity.
Qed.

(** X10: over a whole run, up to where [Run] returns or waits at a select
    for good, every path handed to [os.Remove] is [Join(ImagesDir, name)] of
    a file that [ioutil.ReadDir] listed during the run and that the policy
    selected at a reading of the clock; with a lifetime of zero nothing is
    removed at all.  No other step of a tick removes a file. *)
Theorem Run_removes_only_selected_files
    (srv : CleanUpService) (ctx : Context) (w : World) :
  exists w' evs,
    ((exists e, runs (Run srv ctx) w (Some e) w') \/
     blocks (Run srv ctx) w w') /\
    calls w' = calls w ++ evs /\
    (forall p, In p (removals evs) ->
       exists f t,
         In f (listed evs) /\ In t (readings evs) /\
         shouldCleanupTempFile srv (ModTime f) t = true /\
         p = path_Join (ImagesDir (Cfg srv)) (Name f)) /\
    (TempDataLifetime (Cfg srv) = 0 -> removals evs = []).
Proof.
  destruct (Run_ends srv ctx (confined srv)) with (w := w)
    as (w' & evs & Hc & HI & Hend).
  - apply quiet_confined. reflexivity.
  - apply confined_app.
  - intros T e a Hw. apply quiet_confined.
    destruct e; try discriminate; reflexivity.
  - intros d. apply quiet_confined. reflexivity.
  - apply cleanUpTmpFiles_confined.
  - apply tick_confined.
  - exists w', evs. split; [|split; [exact Hc|split; [exact HI|]]].
    + destruct Hend as [(e & Hrun & _)|Hblk]; [left; exists e|right]; assumption.
    + intros HL. destruct (removals evs) as [|p l] eqn:Hr; [reflexivity|].
      destruct (HI p) as (f & t & _ & _ & Hs & _);
        [rewrite Hr; left; reflexivity|].
      unfold shouldCleanupTempFile in Hs. rewrite HL in Hs. discriminate.
Qed.

(** ** The errors of the bus and the login-attempt deletes of a run *)

Lemma accounted_app (srv : CleanUpService) (a b : list event) :
  accounted srv a -> accounted srv b -> accounted srv (a ++ b).
Proof.
  unfold accounted, ten_minutes_back, bus_errors, error_texts, login_deletes,
    readings.
  intros [A1 A2] [B1 B2]. split.
  - rewrite !flat_map_app, A1, B1. reflexivity.
  - intros c Hc. rewrite flat_map_app in Hc. apply in_app_or in Hc.
    destruct Hc as [Hc|Hc];
      [destruct (A2 c Hc) as (Hd & t & Ht & ->)
      |destruct (B2 c Hc) as (Hd & t & Ht & ->)];
      (split; [exact Hd|]); exists t; rewrite flat_map_app;
      auto using in_or_app.
Qed.

Lemma plain_accounted (srv : CleanUpService) (evs : list event) :
  plain evs -> accounted srv evs.
Proof. intros [H1 H2]. split; [exact H1|]. intros c Hc. rewrite H2 in Hc. destruct Hc. Qed.

Lemma plain_app (a b : list event) : plain a -> plain b -> plain (a ++ b).
Proof.
  unfold plain, bus_errors, error_texts, login_deletes.
  intros [A1 A2] [B1 B2]. rewrite !flat_map_app, A1, A2, B1, B2. auto.
Qed.

Lemma removeAll_plain (srv : CleanUpService) (toDelete : list FileInfo) :
  safe (fun evs _ => plain evs) (removeAll srv toDelete).
Proof.
  induction toDelete as [|file more IH].
  - apply safe_Ret. split; reflexivity.
  - call. destruct a as [e|].
    + call. revert IH. apply safe_weaken.
      intros evs _ H. apply (plain_app [_; _] evs); [split; reflexivity|exact H].
    + enter. resume. revert IH. apply safe_weaken.
      intros evs _ H. apply (plain_app [_] evs); [split; reflexivity|exact H].
Qed.

Lemma cleanUpTmpFiles_plain (srv : CleanUpService) :
  safe (fun evs _ => plain evs) (cleanUpTmpFiles srv).
Proof.
  unfold cleanUpTmpFiles. call.
  destruct (os_IsNotExist a); [done_calls; split; reflexivity|].
  call. destruct a0 as [files [e|]].
  - call. done_calls. split; reflexivity.
  - call.
    apply (safe_bind _ _ (fun evs _ => plain evs)); [apply removeAll_plain|].
    intros evs _ H. call. done_calls.
    apply (plain_app [_; _; _] (evs ++ [_])); [split; reflexivity|].
    apply (plain_app evs [_]); [exact H|split; reflexivity].
Qed.

Lemma deleteExpiredSnapshots_plain (srv : CleanUpService) :
  safe (fun evs _ => plain evs) (deleteExpiredSnapshots srv).
Proof.
  unfold deleteExpiredSnapshots. call.
  destruct a as [cmd [e|]]; call; done_calls; split; reflexivity.
Qed.

Lemma deleteExpiredDashboardVersions_plain (srv : CleanUpService) :
  safe (fun evs _ => plain evs) (deleteExpiredDashboardVersions srv).
Proof.
  unfold deleteExpiredDashboardVersions. call.
  destruct a as [cmd [e|]]; call; done_calls; split; reflexivity.
Qed.

Lemma deleteExpiredUserInvites_plain (srv : CleanUpService) (ctx : Context) :
  safe (fun evs _ => plain evs) (deleteExpiredUserInvites srv ctx).
Proof.
  unfold deleteExpiredUserInvites, WithDbSession. call. call. call.
  destruct a1 as [[n [e'|]] [e|]];
    try (done_calls; split; reflexivity); call; done_calls; split; reflexivity.
Qed.

(** The guarded body: one reading of the clock, one delete that reaches back
    ten minutes from it, and the record of the outcome. *)
Lemma deleteOldLoginAttempts_accounted (srv : CleanUpService) :
  safe (fun evs _ => accounted srv evs) (deleteOldLoginAttempts srv).
Proof.
  unfold deleteOldLoginAttempts.
  destruct (DisableBruteForceLoginProtection (Cfg srv)) eqn:Hd.
  - done_calls. split; [reflexivity|]. intros c [].
  - call. call. destruct a0 as [cmd [e|]]; call; done_calls;
      (split; [reflexivity|]); intros c [<-|[]];
      (split; [exact Hd|]); exists a; split; [left| |left|]; reflexivity.
Qed.

Lemma lockedLoginAttempts_accounted (srv : CleanUpService) (ctx : Context) :
  safe (fun evs _ => accounted srv evs) (lockedLoginAttempts srv ctx).
Proof.
  unfold lockedLoginAttempts, LockAndExecute. call. destruct a as [e|].
  - call. done_calls. apply plain_accounted. split; reflexivity.
  - match goal with
    | |- safe ?Q (ITree.subst ?k1 (ITree.subst ?k2 (Ret None))) =>
        change (safe Q (ITree.bind
                          (ITree.bind (deleteOldLoginAttempts srv)
                             (fun _ => Ret (@None error))) k1))
    end.
    apply (safe_bind _ _ (fun evs r => r = None /\ accounted srv evs)).
    + eapply safe_bind; [apply deleteOldLoginAttempts_accounted|].
      intros evs u H. cbv beta in *. apply safe_Ret.
      rewrite app_nil_r. split; [reflexivity|exact H].
    + intros evs r (-> & H). done_calls.
      rewrite app_nil_r.
      apply (accounted_app srv [_] evs); [|exact H].
      apply plain_accounted. split; reflexivity.
Qed.

Lemma tick_accounted (srv : CleanUpService) (ctx : Context) :
  safe (fun evs _ => accounted srv evs) (tick srv ctx).
Proof.
  unfold tick.
  eapply safe_bind; [apply cleanUpTmpFiles_plain|].
  intros evs1 u1 H1. cbv beta in *.
  eapply safe_bind; [apply deleteExpiredSnapshots_plain|].
  intros evs2 u2 H2. cbv beta in *.
  eapply safe_bind; [apply deleteExpiredDashboardVersions_plain|].
  intros evs3 u3 H3. cbv beta in *.
  eapply safe_bind; [apply deleteExpiredUserInvites_plain|].
  intros evs4 u4 H4. cbv beta in *.
  eapply safe_weaken; [|apply lockedLoginAttempts_accounted].
  intros evs5 u5 H5. cbv beta in *.
  repeat (apply accounted_app; [apply plain_accounted; assumption|]).
  exact H5.
Qed.

Lemma Run_accounted (srv : CleanUpService) (ctx : Context) (w : World) :
  exists w' evs,
    calls w' = calls w ++ evs /\ accounted srv evs /\
    ((exists e, runs (Run srv ctx) w (Some e) w' /\
                reason w = Some e /\ ctx_err w' = Some e) \/
     blocks (Run srv ctx) w w').
Proof.
  apply (Run_ends srv ctx (accounted srv)).
  - apply plain_accounted. split; reflexivity.
  - apply accounted_app.
  - intros T e a Hw. apply plain_accounted.
    destruct e; try discriminate; split; reflexivity.
  - intros d. apply plain_accounted. split; reflexivity.
  - eapply safe_weaken; [|apply cleanUpTmpFiles_plain].
    intros evs u. apply plain_accounted.
  - apply tick_accounted.
Qed.

Lemma ten_minutes : Minute * -10 = -600 * Second.
Proof. reflexivity. Qed.

(** X11: over a whole run, up to where [Run] returns or waits at a select
    for good, every [DeleteOldLoginAttemptsCommand] put on the bus is
    dispatched with the brute-force protection enabled, and its [OlderThan]
    is an instant the run read from the clock less ten minutes, 600 seconds
    to the Unix second. *)
Theorem Run_login_deletes_reach_back_ten_minutes
    (srv : CleanUpService) (ctx : Context) (w : World) :
  exists w' evs,
    ((exists e, runs (Run srv ctx) w (Some e) w') \/
     blocks (Run srv ctx) w w') /\
    calls w' = calls w ++ evs /\
    forall c, In c (login_deletes evs) ->
      DisableBruteForceLoginProtection (Cfg srv) = false /\
      exists t, In t (readings evs) /\ c = Add t (Minute * -10) /\
                Unix c = Unix t - 600.
Proof.
  destruct (Run_accounted srv ctx w) as (w' & evs & Hc & [_ HJ] & Hend).
  exists w', evs. split; [|split; [exact Hc|]].
  - destruct Hend as [(e & Hrun & _)|Hblk]; [left; exists e|right]; assumption.
  - intros c Hin. destruct (HJ c Hin) as (Hd & t & Ht & ->).
    split; [exact Hd|]. exists t. split; [exact Ht|]. split; [reflexivity|].
    rewrite ten_minutes, Unix_shift. lia.
Qed.

(** X12: over a whole run, up to where [Run] returns or waits at a select
    for good, no error of the bus is lost: the Error records that carry a
    text are, one for one and in order, the errors the bus answered the
    deletes of snapshots, dashboard versions and login attempts with, each
    as [err.Error()]. *)
Theorem Run_puts_every_bus_error_on_record
    (srv : CleanUpService) (ctx : Context) (w : World) :
  exists w' evs,
    ((exists e, runs (Run srv ctx) w (Some e) w') \/
     blocks (Run srv ctx) w w') /\
    calls w' = calls w ++ evs /\
    bus_errors evs = error_texts evs.
Proof.
  destruct (Run_accounted srv ctx w) as (w' & evs & Hc & [HB _] & Hend).
  exists w', evs. split; [|split; [exact Hc|exact HB]].
  destruct Hend as [(e & Hrun & _)|Hblk]; [left; exists e|right]; assumption.
Qed.

(** A run of one tick in which the bus fails twice, on the snapshots and on
    the login attempts: both errors are on record. *)
Example Run_with_bus_errors :
  exists w',
    exec 100 (Run (service Hour) TheContext)
      (set_bus_answers [(0, Some DeadlineExceeded); (0, None);
                        (0, Some (ErrOther "table locked"))]
         (set_lock_answers [] (set_chosen [TickerC; CtxDone] world_run)))
    = Returned (Some ContextCanceled) w' /\
    bus_errors (calls w') = [Error DeadlineExceeded; "table locked"] /\
    error_texts (calls w') = [Error DeadlineExceeded; "table locked"] /\
    login_deletes (calls w') = [Add T0 (Minute * -10)].
Proof.
  eexists. split; [vm_compute; reflexivity|]. repeat split.
Qed.
